(** * domain-scout: the generation-and-verification pipeline of [src/index.ts]

    A shallow embedding of the TypeScript program: the string primitives it
    calls ([trim], [toLowerCase], [includes], [split] on the line-break
    pattern), the [Domain] class, [validateTld], [isDomainAvailable],
    [fetchText], [newLineAppendToFile] and the two command actions
    ([print] and [file]), followed by the properties of the pipeline.

    Strings are sequences of code units.  The embedding uses the Standard
    Library's [string], so the code units range over 0..255 (the Latin-1
    block of UTF-16); white space and case mapping are the ECMAScript ones
    restricted to that range.  On that range [toLowerCase] maps code unit to
    code unit; on the whole of UTF-16 it can lengthen a string, so nothing
    below is stated about the length of a lower-cased string.

    Writes are followed up to the call of [fs.writeFile]: the program does
    not await them, so the trace records the requests, in the order they are
    made, and says nothing of when, or whether, each one reaches the file. *)

From Stdlib Require Import Bool Arith Lia List Ascii String QArith Permutation.
Import ListNotations.
Open Scope string_scope.
Open Scope bool_scope.
Open Scope nat_scope.

(** ** String primitives of the runtime *)

Module JsString.

Definition code (c : ascii) : nat := nat_of_ascii c.

(** ECMAScript [WhiteSpace] and [LineTerminator] code points below 256:
    TAB, LF, VT, FF, CR, SP and NBSP. *)
Definition isWhiteSpace (c : ascii) : bool :=
  let n := code c in
  ((9 <=? n) && (n <=? 13)) || (n =? 32) || (n =? 160).

(** Simple lower-case mapping of one code unit: [A-Z] and the
    Latin-1 capitals U+00C0..U+00DE except the multiplication sign. *)
Definition lowerChar (c : ascii) : ascii :=
  let n := code c in
  if ((65 <=? n) && (n <=? 90))
     || ((192 <=? n) && (n <=? 222) && negb (n =? 215))
  then ascii_of_nat (n + 32)
  else c.

(** [String.prototype.toLowerCase] *)
Fixpoint toLowerCase (s : string) : string :=
  match s with
  | EmptyString => EmptyString
  | String c r => String (lowerChar c) (toLowerCase r)
  end.

(** [String.prototype.trimStart] *)
Fixpoint trimStart (s : string) : string :=
  match s with
  | EmptyString => EmptyString
  | String c r => if isWhiteSpace c then trimStart r else s
  end.

Definition isEmpty (s : string) : bool :=
  match s with
  | EmptyString => true
  | String _ _ => false
  end.

(** [String.prototype.trimEnd] *)
Fixpoint trimEnd (s : string) : string :=
  match s with
  | EmptyString => EmptyString
  | String c r =>
      let r' := trimEnd r in
      if isWhiteSpace c && isEmpty r' then EmptyString else String c r'
  end.

(** [String.prototype.trim] *)
Definition trim (s : string) : string := trimEnd (trimStart s).

(** [String.prototype.includes] *)
Fixpoint includes (s sub : string) : bool :=
  String.prefix sub s
  || match s with
     | EmptyString => false
     | String _ r => includes r sub
     end.

Definition LF : ascii := ascii_of_nat 10.
Definition CR : ascii := ascii_of_nat 13.

(** The character class [[\r\n]]. *)
Definition isLineBreak (c : ascii) : bool :=
  Ascii.eqb c CR || Ascii.eqb c LF.

(** [s.split(/[\r\n]+/)].  [inRun] tells that the previous code unit was
    matched by the pattern, [cur] is the piece being read.  A maximal run
    of line breaks is one separator; a separator at either end of the text
    leaves an empty piece there, and the text without separator is the
    single piece. *)
Fixpoint splitFrom (inRun : bool) (cur : string) (s : string) : list string :=
  match s with
  | EmptyString => [cur]
  | String c r =>
      if isLineBreak c then
        if inRun then splitFrom true EmptyString r
        else cur :: splitFrom true EmptyString r
      else splitFrom false (cur ++ String c EmptyString) r
  end.

Definition split (s : string) : list string := splitFrom false EmptyString s.

(** A string that does not begin with white space. *)
Definition startsClean (s : string) : Prop :=
  match s with
  | EmptyString => True
  | String c _ => isWhiteSpace c = false
  end.

(** A string made of white space only. *)
Fixpoint allWhiteSpace (s : string) : bool :=
  match s with
  | EmptyString => true
  | String c r => isWhiteSpace c && allWhiteSpace r
  end.

(** A string without line break, and a non-empty run of line breaks. *)
Fixpoint noLineBreak (s : string) : bool :=
  match s with
  | EmptyString => true
  | String c r => negb (isLineBreak c) && noLineBreak r
  end.

Fixpoint allLineBreaks (s : string) : bool :=
  match s with
  | EmptyString => true
  | String c r => isLineBreak c && allLineBreaks r
  end.

Definition isSeparator (s : string) : bool := negb (isEmpty s) && allLineBreaks s.

(** The text that has the given pieces with the given separators between
    them. *)
Fixpoint interleave (pieces seps : list string) : string :=
  match pieces, seps with
  | [], _ => EmptyString
  | p :: _, [] => p
  | p :: ps, sp :: ss => p ++ sp ++ interleave ps ss
  end.

(** Every element but the last one is non-empty. *)
Fixpoint innerNonEmpty (pieces : list string) : Prop :=
  match pieces with
  | [] => True
  | p :: rest =>
      match rest with
      | [] => True
      | _ :: _ => p <> EmptyString /\ innerNonEmpty rest
      end
  end.

(** Truthiness of a string value: only the empty string is falsy. *)
Definition truthy (s : string) : bool := negb (isEmpty s).

End JsString.
Import JsString.

(** ** Numbers *)

(** A value of the [number] type, as far as the comparison with a string
    length needs it: every finite double is a rational. *)
Inductive number : Type :=
| NaN
| NegInfinity
| PosInfinity
| Finite (q : Q).

(** [ToNumber] of an option value that may be [undefined]. *)
Definition toNumber (v : option number) : number :=
  match v with
  | None => NaN
  | Some n => n
  end.

(** The comparison [len > maxLength] for a string length [len]: false as soon
    as the right operand is [NaN]. *)
Definition lengthGreater (len : nat) (maxLength : number) : bool :=
  match maxLength with
  | NaN => false
  | NegInfinity => true
  | PosInfinity => false
  | Finite q => negb (Qle_bool (inject_Z (Z.of_nat len)) q)
  end.

(** A length exceeds a bound: never when the bound is [NaN]. *)
Definition exceeds (len : nat) (maxLength : number) : Prop :=
  match maxLength with
  | NaN => False
  | NegInfinity => True
  | PosInfinity => False
  | Finite q => (q < inject_Z (Z.of_nat len))%Q
  end.

(** A bound that is unspecified, unbounded or at least zero. *)
Definition notBelowZero (maxLength : number) : Prop :=
  match maxLength with
  | NaN => True
  | NegInfinity => False
  | PosInfinity => True
  | Finite q => (0 <= q)%Q
  end.

(** ** The [Domain] class *)

Record Domain : Type := mkDomain { sld : string; tld : string }.

(** [new Domain(sld, tld)] *)
Definition newDomain (sld tld : string) : Domain :=
  {| sld := toLowerCase (trim sld); tld := toLowerCase (trim tld) |}.

(** [Domain.prototype.full] *)
Definition full (d : Domain) : string :=
  trim (toLowerCase (sld d) ++ "." ++ toLowerCase (tld d)).

(** ** [validateTld] *)

Definition validateTld (tld : string) (maxLength : number) : bool :=
  if negb (truthy tld) then false
  else if lengthGreater (String.length (trim tld)) maxLength then false
  else if includes tld "-" then false
  else true.

(** ** The earlier copy of the class *)

(** [index.ts] at the root of the repository is an earlier state of the same
    program (no [--list], no [--disable-prefix], the length test outside
    [validateTld]).  Its [Domain] stores the arguments as they come and
    [full] only lower-cases them.  The pipeline verified below is the one of
    [src/index.ts]; the earlier class is kept for comparison. *)
Module Earlier.

Definition newDomain (sld tld : string) : Domain :=
  {| sld := sld; tld := tld |}.

Definition full (d : Domain) : string :=
  toLowerCase (sld d) ++ "." ++ toLowerCase (tld d).

Definition validateTld (tld : string) : bool :=
  if negb (truthy tld) then false
  else if includes tld "-" then false
  else true.

End Earlier.

(** ** Console text *)

(** What [chalk] builds: styled pieces, nested and concatenated. *)
Inductive style : Type :=
| gray | green | red | yellow | magenta | blue | italic | bold.

Inductive text : Type :=
| Plain (s : string)
| Chalk (st : style) (t : text)
| Cat (a b : text).

Definition availablePrefix : text :=
  Cat (Cat (Chalk gray (Plain "[")) (Chalk green (Plain "+")))
      (Chalk gray (Plain "] ")).
Definition unavailablePrefix : text :=
  Cat (Cat (Chalk gray (Plain "[")) (Chalk red (Plain "-")))
      (Chalk gray (Plain "] ")).
Definition unknownPrefix : text :=
  Cat (Cat (Chalk gray (Plain "[")) (Chalk yellow (Plain "?")))
      (Chalk gray (Plain "] ")).

Definition tldUrl : string :=
  "https://data.iana.org/TLD/tlds-alpha-by-domain.txt".

(** ** Effects, promises and the outside world *)

Inductive flag : Type := flag_a | flag_w.

Inductive effect : Type :=
| ConsoleLog (t : text)
| WriteFile (fileName : string) (data : string) (fl : flag).

Inductive error : Type :=
| FsError (code : string)
| FetchError (message : string).

Inductive promise (A : Type) : Type :=
| Fulfilled (a : A)
| Rejected (e : error).
Arguments Fulfilled {A} a.
Arguments Rejected {A} e.

(** A [node-fetch] response: its status and what [res.text()] settles to. *)
Record Response : Type := mkResponse { status : nat; resText : promise string }.

(** The file system and the network as the run finds them. *)
Record Env : Type := mkEnv {
  readFile : string -> promise string;
  nodefetch : string -> promise Response
}.

Definition fetchText (env : Env) (url : string) : promise string :=
  match nodefetch env url with
  | Fulfilled res => resText res
  | Rejected e => Rejected e
  end.

(** What [dnsPromises.lookup] settles to. *)
Inductive lookupResult : Type :=
| Address (address : string)
| LookupError (code : string).

Definition Resolver : Type := string -> lookupResult.

(** [isDomainAvailable]: the promise is fulfilled in both branches of the
    [try]; [true] stands for the outcome Available, [false] for
    Unavailable. *)
Definition isDomainAvailable (lookup : Resolver) (domain : Domain) : bool :=
  match lookup (full domain) with
  | Address _ => false
  | LookupError _ => true
  end.

Definition newLine : string := String LF EmptyString.

Definition newLineAppendToFile (fileName : string) (text : string) : list effect :=
  [WriteFile fileName (text ++ newLine) flag_a].

(** ** The two command actions *)

Record PrintOptions : Type := mkPrintOptions {
  p_test : bool;
  p_ignoreUnavailable : bool;
  p_max : option number;
  p_list : option string;
  p_disablePrefix : bool
}.

Record FileOptions : Type := mkFileOptions {
  f_ignoreUnavailable : bool;
  f_max : option number;
  f_list : option string
}.

(** The callback attached with [.then] to one availability check. *)
Inductive continuation : Type :=
| PrintThen (disablePrefix ignoreUnavailable : bool)
| FileThen (fileName : string).

(** A check in flight: the domain it was started for and its callback. *)
Record check : Type := mkCheck { candidate : Domain; onFulfilled : continuation }.

(** [disablePrefix ? chalk.c(domain.full()) : prefix + chalk.c(domain.full())] *)
Definition resultLine (disablePrefix : bool) (prefix : text) (c : style)
    (domain : Domain) : text :=
  if disablePrefix then Chalk c (Plain (full domain))
  else Cat prefix (Chalk c (Plain (full domain))).

(** The body of the callback, run with the verdict of the check. *)
Definition resume (c : check) (available : bool) : list effect :=
  match onFulfilled c with
  | PrintThen disablePrefix ignoreUnavailable =>
      if available then
        [ConsoleLog (resultLine disablePrefix availablePrefix green (candidate c))]
      else if negb ignoreUnavailable then
        [ConsoleLog (resultLine disablePrefix unavailablePrefix red (candidate c))]
      else []
  | FileThen fileName =>
      if available then newLineAppendToFile fileName (full (candidate c))
      else []
  end.

(** [for (const tld of tlds) body]: the effects performed during the loop, in
    order, and the checks it leaves in flight, in order of launch. *)
Fixpoint forOf (body : string -> list effect * list check) (tlds : list string)
  : list effect * list check :=
  match tlds with
  | [] => ([], [])
  | tld :: rest =>
      let '(e1, c1) := body tld in
      let '(e2, c2) := forOf body rest in
      ((e1 ++ e2)%list, (c1 ++ c2)%list)
  end.

Definition printBody (sld : string) (test ignoreUnavailable disablePrefix : bool)
    (max : number) (tld : string) : list effect * list check :=
  if negb (validateTld tld max) then ([], [])
  else
    let domain := newDomain sld tld in
    if test then
      ([], [mkCheck domain (PrintThen disablePrefix ignoreUnavailable)])
    else
      ([ConsoleLog (resultLine disablePrefix unknownPrefix yellow domain)], []).

Definition fileBody (sld fileName : string) (ignoreUnavailable : bool)
    (max : number) (tld : string) : list effect * list check :=
  if negb (validateTld tld max) then ([], [])
  else
    let domain := newDomain sld tld in
    if ignoreUnavailable then ([], [mkCheck domain (FileThen fileName)])
    else (newLineAppendToFile fileName (full domain), []).

(** The state of a run: the console lines and the write requests made so far,
    the checks still in flight, the rejection of the source promise, which no
    handler takes (if it rejected), and, as a record of the history, the
    verdict of every check settled so far.  The promises of the write requests
    are not followed. *)
Record world : Type := mkWorld {
  trace : list effect;
  inflight : list check;
  unhandled : option error;
  verdicts : list (Domain * bool)
}.

Definition gettingFromFile (listFile : string) : effect :=
  ConsoleLog (Chalk magenta
    (Cat (Cat (Plain "Getting TLD list from file ") (Chalk italic (Plain listFile)))
         (Plain ":"))).

Definition gettingFromUrl : effect :=
  ConsoleLog (Chalk magenta
    (Cat (Cat (Plain "Getting TLD list from url ") (Chalk italic (Plain tldUrl)))
         (Plain ":"))).

Definition checkingAll (sld : string) : effect :=
  ConsoleLog (Chalk blue
    (Cat (Cat (Plain "Checking all TLDs with SLD ") (Chalk bold (Plain sld)))
         (Plain "."))).

(** The first statements of both actions: announce the source and start
    loading it. *)
Definition loadSource (env : Env) (listFile : option string)
  : effect * promise string :=
  match listFile with
  | Some f =>
      if truthy f then (gettingFromFile f, readFile env f)
      else (gettingFromUrl, fetchText env tldUrl)
  | None => (gettingFromUrl, fetchText env tldUrl)
  end.

(** [tlds.shift()] followed by the display of the header. *)
Definition shiftHeader (tlds : list string) : list effect * list string :=
  match tlds with
  | [] => ([], [])
  | header :: rest => ([ConsoleLog (Chalk magenta (Plain header))], rest)
  end.

(** The callback of [rawTldsPromise.then], the timer callback included: the
    timer only delays the loop, nothing else runs in between. *)
Definition onRawTlds (sld : string) (body : string -> list effect * list check)
    (rawTlds : string) : list effect * list check :=
  let '(shown, tlds) := shiftHeader (split rawTlds) in
  let '(looped, launched) := forOf body tlds in
  ((shown ++ [checkingAll sld] ++ looped)%list, launched).

(** An action up to the end of its loop.  No rejection handler is attached to
    [rawTldsPromise]: a rejected source leaves the rejection unhandled and the
    callback never runs. *)
Definition action (env : Env) (sld : string) (listFile : option string)
    (body : string -> list effect * list check) : world :=
  let '(announce, rawTldsPromise) := loadSource env listFile in
  match rawTldsPromise with
  | Rejected e =>
      {| trace := [announce]; inflight := []; unhandled := Some e; verdicts := [] |}
  | Fulfilled rawTlds =>
      let '(written, launched) := onRawTlds sld body rawTlds in
      {| trace := announce :: written; inflight := launched;
         unhandled := None; verdicts := [] |}
  end.

Definition printAction (env : Env) (sld : string) (options : PrintOptions) : world :=
  let ignoreUnavailable := p_ignoreUnavailable options in
  let test := p_test options || ignoreUnavailable in
  let max := toNumber (p_max options) in
  action env sld (p_list options)
    (printBody sld test ignoreUnavailable (p_disablePrefix options) max).

Definition fileAction (env : Env) (sld fileName : string) (options : FileOptions)
  : world :=
  action env sld (f_list options)
    (fileBody sld fileName (f_ignoreUnavailable options) (toNumber (f_max options))).

(** The two commands registered with [program.command]. *)
Inductive command : Type :=
| Print (options : PrintOptions)
| File (fileName : string) (options : FileOptions).

Definition run (env : Env) (sld : string) (cmd : command) : world :=
  match cmd with
  | Print options => printAction env sld options
  | File fileName options => fileAction env sld fileName options
  end.

Definition listOf (cmd : command) : option string :=
  match cmd with
  | Print options => p_list options
  | File _ options => f_list options
  end.

Definition maxOf (cmd : command) : number :=
  match cmd with
  | Print options => toNumber (p_max options)
  | File _ options => toNumber (f_max options)
  end.

(** ** Settling the checks *)

Fixpoint removeAt {A : Type} (i : nat) (l : list A) : list A :=
  match l, i with
  | [], _ => []
  | _ :: r, 0 => r
  | x :: r, S j => x :: removeAt j r
  end.

(** The [i]-th check in flight settles while the resolver answers as
    [lookup]: its callback runs, the other checks stay as they are. *)
Definition settle (lookup : Resolver) (i : nat) (w : world) : option world :=
  match nth_error (inflight w) i with
  | None => None
  | Some c =>
      let available := isDomainAvailable lookup (candidate c) in
      Some {| trace := (trace w ++ resume c available)%list;
              inflight := removeAt i (inflight w);
              unhandled := unhandled w;
              verdicts := (verdicts w ++ [(candidate c, available)])%list |}
  end.

(** The checks settle in any order, each against any state of the DNS. *)
Inductive step : world -> world -> Prop :=
| step_settle : forall lookup i w w',
    settle lookup i w = Some w' -> step w w'.

Inductive steps : world -> world -> Prop :=
| steps_refl : forall w, steps w w
| steps_snoc : forall w w1 w2, steps w w1 -> step w1 w2 -> steps w w2.

(** A schedule names, for each settlement, the check and the resolver. *)
Fixpoint runSchedule (schedule : list (Resolver * nat)) (w : world) : option world :=
  match schedule with
  | [] => Some w
  | (lookup, i) :: rest =>
      match settle lookup i w with
      | None => None
      | Some w' => runSchedule rest w'
      end
  end.

(** ** Observations *)

Definition isCategory (c : style) : bool :=
  match c with
  | green | red | yellow => true
  | _ => false
  end.

(** The category colour and the domain of a result line; the announcements
    and the header are no result lines. *)
Definition resultOf (t : text) : option (style * string) :=
  match t with
  | Chalk c (Plain s) => if isCategory c then Some (c, s) else None
  | Cat _ (Chalk c (Plain s)) => if isCategory c then Some (c, s) else None
  | _ => None
  end.

(** The prefix in front of the domain of a result line, if it has one. *)
Definition prefixOf (t : text) : option text :=
  match t with
  | Cat p (Chalk _ (Plain _)) => Some p
  | _ => None
  end.

Definition dropLast (s : string) : string :=
  String.substring 0 (String.length s - 1) s.

(** The fully-qualified domains a trace emits: the result lines on the
    console and the lines written to a file. *)
Fixpoint emitted (tr : list effect) : list string :=
  match tr with
  | [] => []
  | ConsoleLog t :: rest =>
      match resultOf t with
      | Some (_, s) => s :: emitted rest
      | None => emitted rest
      end
  | WriteFile _ data _ :: rest => dropLast data :: emitted rest
  end.

(** The writes a trace makes to one file, in order.  Each write is taken as
    performed whole, in the order it was requested. *)
Fixpoint writesTo (fileName : string) (tr : list effect) : list (string * flag) :=
  match tr with
  | [] => []
  | WriteFile f data fl :: rest =>
      if String.eqb f fileName then (data, fl) :: writesTo fileName rest
      else writesTo fileName rest
  | ConsoleLog _ :: rest => writesTo fileName rest
  end.

(** The content a file has once the writes of a sequence have all been
    performed, whole and in that order.  For the requests of a run this is one
    of the possible outcomes: unawaited writes may complete in another order
    or fail. *)
Fixpoint fileAfter (content : string) (writes : list (string * flag)) : string :=
  match writes with
  | [] => content
  | (data, flag_a) :: rest => fileAfter (content ++ data) rest
  | (data, flag_w) :: rest => fileAfter data rest
  end.

Fixpoint countChar (c : ascii) (s : string) : nat :=
  match s with
  | EmptyString => 0
  | String d r => (if Ascii.eqb d c then 1 else 0) + countChar c r
  end.

(** The line appended for a domain. *)
Definition lineOf (d : Domain) : string := full d ++ newLine.

Definition joinAll (chunks : list string) : string :=
  fold_right String.append EmptyString chunks.

(** The number of lines of a file: its line feeds. *)
Definition lineCount (content : string) : nat := countChar LF content.

(** The TLDs the loop keeps and the domains it constructs, in order. *)
Definition validTlds (max : number) (tlds : list string) : list string :=
  filter (fun tld => validateTld tld max) tlds.

Definition candidates (sld : string) (max : number) (tlds : list string)
  : list Domain :=
  map (newDomain sld) (validTlds max tlds).

(** The effects and the verdicts of a sequence of settled checks. *)
Definition replay (settled : list (check * bool)) : list effect :=
  flat_map (fun cb => resume (fst cb) (snd cb)) settled.

Definition verdictsOf (settled : list (check * bool)) : list (Domain * bool) :=
  map (fun cb => (candidate (fst cb), snd cb)) settled.

(** The domains classified Available by a list of verdicts. *)
Definition availableIn (vs : list (Domain * bool)) : list Domain :=
  map fst (filter snd vs).

(** A resolver for which every lookup fails. *)
Definition alwaysFails (lookup : Resolver) : Prop :=
  forall hostname, exists code, lookup hostname = LookupError code.

(** A text that does not begin with a line break. *)
Definition startsWithText (s : string) : Prop :=
  match s with
  | EmptyString => True
  | String c _ => isLineBreak c = false
  end.

(** The result lines of a trace with their category colour, in order. *)
Fixpoint results (tr : list effect) : list (style * string) :=
  match tr with
  | [] => []
  | ConsoleLog t :: rest =>
      match resultOf t with
      | Some r => r :: results rest
      | None => results rest
      end
  | WriteFile _ _ _ :: rest => results rest
  end.

(** What the checked print path shows for a verdict: nothing for a domain in
    use when unavailable domains are ignored. *)
Definition shownVerdict (ignoreUnavailable : bool) (v : Domain * bool) : bool :=
  snd v || negb ignoreUnavailable.

Definition verdictResult (v : Domain * bool) : style * string :=
  (if snd v then green else red, full (fst v)).

(** The console lines the checked print path writes for a verdict. *)
Definition verdictLines (disablePrefix ignoreUnavailable : bool) (v : Domain * bool)
  : list effect :=
  resume (mkCheck (fst v) (PrintThen disablePrefix ignoreUnavailable)) (snd v).

(** A check together with the verdict a resolver gives it. *)
Definition judged (lookup : Resolver) (c : check) : check * bool :=
  (c, isDomainAvailable lookup (candidate c)).

(** The file a command writes to, if any. *)
Definition targetOf (cmd : command) : option string :=
  match cmd with
  | Print _ => None
  | File fileName _ => Some fileName
  end.

(** An effect that, when it is a write, appends to the given file. *)
Definition appendsOnlyTo (target : option string) (e : effect) : Prop :=
  match e with
  | ConsoleLog _ => True
  | WriteFile f _ fl => fl = flag_a /\ target = Some f
  end.

(** The body of the loop of a command. *)
Definition bodyOf (sld : string) (cmd : command) : string -> list effect * list check :=
  match cmd with
  | Print options =>
      printBody sld (p_test options || p_ignoreUnavailable options)
        (p_ignoreUnavailable options) (p_disablePrefix options)
        (toNumber (p_max options))
  | File fileName options =>
      fileBody sld fileName (f_ignoreUnavailable options) (toNumber (f_max options))
  end.

(** The two tests at the head of the loop of the earlier [index.ts]:
    [if (tld.length > max) continue; if (!validateTld(tld)) continue;]. *)
Definition earlierKeeps (max : number) (tld : string) : bool :=
  if lengthGreater (String.length tld) max then false
  else if negb (Earlier.validateTld tld) then false
  else true.

(** The schedule that settles [n] checks in the order of their launch, all
    against the same resolver. *)
Definition inLaunchOrder (lookup : Resolver) (n : nat) : list (Resolver * nat) :=
  repeat (lookup, 0) n.

(** What the runtime does with a rejection that no handler took (the default
    of Node since version 15): the reason is printed on the error stream and
    the process ends with exit code 1. *)
Definition onUnhandledRejection (reason : error) : nat * error := (1, reason).

(** The end of the process forced by the rejection of the source promise:
    exit code and what the error stream shows.  [None] when the source was
    read; how the process ends is then decided by the rest of the run. *)
Definition ending (w : world) : option (nat * error) :=
  option_map onUnhandledRejection (unhandled w).

(** ** Examples *)

Definition scenarioText : string :=
  "#header" ++ newLine ++ "com" ++ newLine ++ "net" ++ newLine
  ++ "xn--p1ai" ++ newLine ++ "co-op" ++ newLine.

(** The local list of the end-to-end scenario, read from a file. *)
Definition scenarioEnv : Env :=
  {| readFile := fun _ => Fulfilled scenarioText;
     nodefetch := fun _ => Rejected (FetchError "offline") |}.

(** A server that answers 404 with a short HTML page. *)
Definition notFoundPage : string :=
  "<html>" ++ newLine ++ "<body>404</body>" ++ newLine ++ "</html>".

Definition notFoundEnv : Env :=
  {| readFile := fun _ => Rejected (FsError "ENOENT");
     nodefetch := fun _ => Fulfilled (mkResponse 404 (Fulfilled notFoundPage)) |}.

(** Neither the file nor the network can be read. *)
Definition offlineEnv : Env :=
  {| readFile := fun _ => Rejected (FsError "ENOENT");
     nodefetch := fun _ => Rejected (FetchError "ENETUNREACH") |}.

(** A list whose comment line is repeated. *)
Definition repeatedHeaderText : string :=
  "# tlds" ++ newLine ++ "# tlds" ++ newLine ++ "com" ++ newLine.

Definition repeatedHeaderEnv : Env :=
  {| readFile := fun _ => Fulfilled repeatedHeaderText;
     nodefetch := fun _ => Rejected (FetchError "offline") |}.

(** An SLD argument that holds a line feed. *)
Definition twoLineSld : string := "a" ++ newLine ++ "b".

Definition nxdomain : Resolver := fun _ => LookupError "ENOTFOUND".
Definition resolves : Resolver := fun _ => Address "192.0.2.1".

Example split_scenario :
  split scenarioText = ["#header"; "com"; "net"; "xn--p1ai"; "co-op"; ""].
Proof. reflexivity. Qed.

Example full_Foo_COM : full (newDomain " Foo " " COM ") = "foo.com".
Proof. reflexivity. Qed.

(** * Properties *)

(** ** The string primitives *)

Section StringFacts.

Lemma append_empty_r : forall s : string, s ++ "" = s.
Proof. induction s as [|c r IH]; simpl; [reflexivity | now rewrite IH]. Qed.

Lemma append_assoc : forall a b c : string, (a ++ b) ++ c = a ++ (b ++ c).
Proof. induction a as [|x r IH]; intros; simpl; [reflexivity | now rewrite IH]. Qed.

Lemma isEmpty_true : forall s, isEmpty s = true <-> s = "".
Proof. destruct s; simpl; split; intro H; try reflexivity; discriminate. Qed.

Lemma isWhiteSpace_lowerChar : forall c, isWhiteSpace (lowerChar c) = isWhiteSpace c.
Proof. destruct c as [[] [] [] [] [] [] [] []]; reflexivity. Qed.

Lemma lowerChar_idem : forall c, lowerChar (lowerChar c) = lowerChar c.
Proof. destruct c as [[] [] [] [] [] [] [] []]; reflexivity. Qed.

Lemma toLowerCase_idem : forall s, toLowerCase (toLowerCase s) = toLowerCase s.
Proof.
  induction s as [|c r IH]; simpl; [reflexivity|].
  now rewrite lowerChar_idem, IH.
Qed.

Lemma toLowerCase_append : forall a b,
  toLowerCase (a ++ b) = toLowerCase a ++ toLowerCase b.
Proof. induction a as [|c r IH]; intros; simpl; [reflexivity | now rewrite IH]. Qed.

Lemma isEmpty_toLowerCase : forall s, isEmpty (toLowerCase s) = isEmpty s.
Proof. destruct s; reflexivity. Qed.

Lemma trimStart_toLowerCase : forall s,
  trimStart (toLowerCase s) = toLowerCase (trimStart s).
Proof.
  induction s as [|c r IH]; simpl; [reflexivity|].
  rewrite isWhiteSpace_lowerChar. destruct (isWhiteSpace c); [exact IH | reflexivity].
Qed.

Lemma trimEnd_toLowerCase : forall s,
  trimEnd (toLowerCase s) = toLowerCase (trimEnd s).
Proof.
  induction s as [|c r IH]; simpl; [reflexivity|].
  rewrite isWhiteSpace_lowerChar, IH, isEmpty_toLowerCase.
  destruct (isWhiteSpace c && isEmpty (trimEnd r)); reflexivity.
Qed.

(** Trimming and lower-casing commute. *)
Lemma trim_toLowerCase : forall s, trim (toLowerCase s) = toLowerCase (trim s).
Proof.
  intro s. unfold trim. now rewrite trimStart_toLowerCase, trimEnd_toLowerCase.
Qed.

Lemma trimStart_startsClean : forall s, startsClean (trimStart s).
Proof.
  induction s as [|c r IH]; simpl; [exact I|].
  destruct (isWhiteSpace c) eqn:E; [exact IH | exact E].
Qed.

Lemma trimEnd_startsClean : forall s, startsClean s -> startsClean (trimEnd s).
Proof.
  destruct s as [|c r]; simpl; intro H; [exact I|].
  rewrite H. exact H.
Qed.

Lemma trimStart_clean : forall s, startsClean s -> trimStart s = s.
Proof. destruct s as [|c r]; simpl; intro H; [reflexivity | now rewrite H]. Qed.

Lemma trimEnd_idem : forall s, trimEnd (trimEnd s) = trimEnd s.
Proof.
  induction s as [|c r IH]; simpl; [reflexivity|].
  destruct (isWhiteSpace c) eqn:Ec; simpl.
  - destruct (isEmpty (trimEnd r)) eqn:Er; simpl; [reflexivity|].
    now rewrite Ec, IH, Er.
  - now rewrite Ec, IH.
Qed.

Lemma trimEnd_append : forall a x,
  isEmpty (trimEnd x) = false -> trimEnd (a ++ x) = a ++ trimEnd x.
Proof.
  induction a as [|c r IH]; intros x Hx; simpl; [reflexivity|].
  rewrite (IH x Hx).
  destruct (trimEnd x) eqn:E; [discriminate|].
  replace (isEmpty (r ++ String a s)) with false by (destruct r; reflexivity).
  now rewrite andb_false_r.
Qed.

Lemma startsClean_toLowerCase : forall s, startsClean s -> startsClean (toLowerCase s).
Proof. destruct s as [|c r]; simpl; [trivial | now rewrite isWhiteSpace_lowerChar]. Qed.

Lemma startsClean_trim : forall s, startsClean (trim s).
Proof. intro s. apply trimEnd_startsClean, trimStart_startsClean. Qed.

Lemma trimEnd_trim : forall s, trimEnd (trim s) = trim s.
Proof. intro s. apply trimEnd_idem. Qed.

(** Joining a left part without leading white space and a right part
    without trailing white space by a dot leaves nothing to trim. *)
Lemma trim_dotted : forall a b,
  startsClean a -> trimEnd b = b -> trim (a ++ "." ++ b) = a ++ "." ++ b.
Proof.
  intros a b Ha Hb. unfold trim.
  rewrite trimStart_clean.
  - assert (Hdot : trimEnd ("." ++ b) = "." ++ b) by (simpl; now rewrite Hb).
    rewrite trimEnd_append; rewrite Hdot; reflexivity.
  - destruct a; simpl; [reflexivity | exact Ha].
Qed.

Lemma includes_cons_hyphen : forall c r,
  includes (String c r) "-" = Ascii.eqb "-" c || includes r "-".
Proof.
  intros c r. cbn [includes String.prefix].
  destruct (ascii_dec "-" c) as [<-|Hne].
  - rewrite Ascii.eqb_refl. now destruct r.
  - apply Ascii.eqb_neq in Hne. now rewrite Hne.
Qed.

(** [includes] of the one-character string is an occurrence of it. *)
Lemma includes_hyphen : forall s,
  includes s "-" = true <-> exists pre post, s = pre ++ "-" ++ post.
Proof.
  induction s as [|c r IH].
  - split; [discriminate|]. intros [[|? ?] [post H]]; discriminate.
  - rewrite includes_cons_hyphen.
    destruct (Ascii.eqb "-" c) eqn:E.
    + apply Ascii.eqb_eq in E. subst c.
      split; [|reflexivity]. intros _. exists "", r. reflexivity.
    + apply Ascii.eqb_neq in E. simpl. rewrite IH. split.
      * intros [pre [post ->]]. exists (String c pre), post. reflexivity.
      * intros [[|x pre] [post H]]; simpl in H; inversion H; subst.
        -- now contradiction E.
        -- now exists pre, post.
Qed.

Lemma trim_allWhiteSpace : forall s, allWhiteSpace s = true -> trim s = "".
Proof.
  unfold trim. induction s as [|c r IH]; simpl; [reflexivity|].
  intro H. apply andb_true_iff in H as [Hc Hr]. rewrite Hc. now apply IH.
Qed.

Lemma includes_allWhiteSpace : forall s,
  allWhiteSpace s = true -> includes s "-" = false.
Proof.
  induction s as [|c r IH]; [reflexivity|].
  cbn [allWhiteSpace]. intro H. apply andb_true_iff in H as [Hc Hr].
  rewrite includes_cons_hyphen, (IH Hr), orb_false_r.
  apply Ascii.eqb_neq. intros <-. discriminate Hc.
Qed.

End StringFacts.

(** ** [validateTld] *)

Lemma lengthGreater_exceeds : forall len maxLength,
  lengthGreater len maxLength = true <-> exceeds len maxLength.
Proof.
  intros len [| | |q]; simpl; try (split; [discriminate | contradiction]).
  - split; trivial.
  - rewrite negb_true_iff, <- not_true_iff_false, Qle_bool_iff.
    split; [apply Qnot_le_lt | apply Qlt_not_le].
Qed.

Lemma truthy_false : forall s, truthy s = false <-> s = "".
Proof.
  intro s. unfold truthy. rewrite negb_false_iff. apply isEmpty_true.
Qed.

Lemma notBelowZero_exceeds : forall maxLength,
  notBelowZero maxLength <-> ~ exceeds 0 maxLength.
Proof.
  intros [| | |q]; simpl; try tauto.
  split; [apply Qle_not_lt | apply Qnot_lt_le].
Qed.

(** C2. [validateTld tld maxLength] is false exactly when [tld] is empty, or
    the length of the trimmed [tld] exceeds [maxLength], or [tld] contains a
    hyphen; the three tests are made in that order, each only when the
    previous ones passed; an unspecified or unbounded [maxLength] is never
    exceeded; and on the text of the end-to-end scenario with max 3 the TLDs
    kept after the header are exactly com and net. *)
Theorem validateTld_rules :
  (forall tld maxLength,
      validateTld tld maxLength = false <->
      tld = ""
      \/ exceeds (String.length (trim tld)) maxLength
      \/ exists pre post, tld = pre ++ "-" ++ post)
  /\ (forall tld maxLength,
        validateTld tld maxLength =
        if isEmpty tld then false
        else if lengthGreater (String.length (trim tld)) maxLength then false
        else negb (includes tld "-"))
  /\ (forall len, lengthGreater len (toNumber None) = false
                  /\ lengthGreater len PosInfinity = false)
  /\ validTlds (Finite 3) (tl (split scenarioText)) = ["com"; "net"]
  /\ map full (candidates "example" (Finite 3) (tl (split scenarioText)))
     = ["example.com"; "example.net"].
Proof.
  split; [|split; [|split; [|split]]].
  - intros tld maxLength. unfold validateTld.
    destruct (truthy tld) eqn:Et; simpl.
    + assert (Hne : tld <> "") by (intros ->; discriminate Et).
      destruct (lengthGreater (String.length (trim tld)) maxLength) eqn:El.
      * apply lengthGreater_exceeds in El. tauto.
      * assert (Hl : ~ exceeds (String.length (trim tld)) maxLength).
        { rewrite <- lengthGreater_exceeds, El. discriminate. }
        destruct (includes tld "-") eqn:Ei.
        -- apply includes_hyphen in Ei. tauto.
        -- assert (Hi : ~ exists pre post, tld = pre ++ "-" ++ post).
           { rewrite <- includes_hyphen, Ei. discriminate. }
           split; [discriminate | tauto].
    + apply truthy_false in Et. tauto.
  - intros tld maxLength. unfold validateTld, truthy.
    destruct (isEmpty tld); simpl; [reflexivity|].
    destruct (lengthGreater _ _); [reflexivity|].
    destruct (includes tld "-"); reflexivity.
  - intro len. split; reflexivity.
  - reflexivity.
  - reflexivity.
Qed.

(** ** The [Domain] class *)

Lemma full_newDomain : forall sld tld,
  full (newDomain sld tld) = toLowerCase (trim sld) ++ "." ++ toLowerCase (trim tld).
Proof.
  intros s t. unfold full, newDomain; simpl sld; simpl tld.
  rewrite !toLowerCase_idem.
  apply trim_dotted.
  - apply startsClean_toLowerCase, startsClean_trim.
  - now rewrite trimEnd_toLowerCase, trimEnd_trim.
Qed.

(** C3. Building a candidate is a total function of the two strings: both
    fields are the input trimmed and lower-cased (in either order of the two
    operations), and [full] is the trimmed lower-cased SLD, a dot, and the
    trimmed lower-cased TLD; [" Foo "] with [" COM "] gives ["foo.com"]. *)
Theorem newDomain_full_normalised :
  (forall s t,
      sld (newDomain s t) = toLowerCase (trim s)
      /\ tld (newDomain s t) = toLowerCase (trim t)
      /\ toLowerCase (trim s) = trim (toLowerCase s)
      /\ toLowerCase (trim t) = trim (toLowerCase t)
      /\ full (newDomain s t) = toLowerCase (trim s) ++ "." ++ toLowerCase (trim t))
  /\ full (newDomain " Foo " " COM ") = "foo.com".
Proof.
  split; [|reflexivity].
  intros s t. repeat split; try reflexivity.
  - symmetry. apply trim_toLowerCase.
  - symmetry. apply trim_toLowerCase.
  - apply full_newDomain.
Qed.

(** X21. The earlier class keeps surrounding white space; on trimmed input
    the two classes agree. *)
Remark earlier_full_keeps_spaces :
  Earlier.full (Earlier.newDomain " Foo " " COM ") = " foo . com "
  /\ forall s t, Earlier.full (Earlier.newDomain (trim s) (trim t))
                 = full (newDomain s t).
Proof.
  split; [reflexivity|]. intros s t. rewrite full_newDomain. reflexivity.
Qed.

(** C10, as stated, fails: under a bound below zero the trimmed length 0
    exceeds the bound and a blank line is rejected. *)
Lemma blank_rejected_below_zero :
  validateTld " " (Finite (-1 # 1)) = false
  /\ String.length (trim " ") = 0
  /\ lengthGreater 0 (Finite (-1 # 1)) = true.
Proof. repeat split. Qed.

(** C10, amended. For every bound that is unspecified, unbounded or at least
    zero, a non-empty string of white space passes [validateTld]; the
    candidate built from it has the empty TLD and its [full] is the trimmed
    lower-cased SLD followed by a lone dot. *)
Theorem blank_tld_passes :
  forall s t maxLength,
    t <> "" -> allWhiteSpace t = true -> notBelowZero maxLength ->
    validateTld t maxLength = true
    /\ tld (newDomain s t) = ""
    /\ full (newDomain s t) = toLowerCase (trim s) ++ ".".
Proof.
  intros s t maxLength Hne Hws Hmax.
  assert (Htrim : trim t = "") by now apply trim_allWhiteSpace.
  repeat split.
  - unfold validateTld.
    destruct (truthy t) eqn:Et; [|apply truthy_false in Et; contradiction].
    simpl. rewrite Htrim. simpl String.length.
    destruct (lengthGreater 0 maxLength) eqn:El.
    + apply lengthGreater_exceeds in El.
      apply notBelowZero_exceeds in Hmax. contradiction.
    + now rewrite includes_allWhiteSpace.
  - simpl. now rewrite Htrim.
  - rewrite full_newDomain, Htrim. reflexivity.
Qed.

Lemma blank_tld_passes_witness :
  validateTld " " (Finite 3) = true
  /\ tld (newDomain " Example" " ") = ""
  /\ full (newDomain " Example" " ") = "example.".
Proof.
  apply (blank_tld_passes " Example" " " (Finite 3)).
  - discriminate.
  - reflexivity.
  - simpl. discriminate.
Defined.

(** ** The parser: [split] and [shift] *)

Section SplitFacts.

Lemma noLineBreak_snoc : forall cur c,
  noLineBreak cur = true -> isLineBreak c = false ->
  noLineBreak (cur ++ String c "") = true.
Proof.
  induction cur as [|x r IH]; simpl; intros c Hc Hb.
  - now rewrite Hb.
  - apply andb_true_iff in Hc as [Hx Hr]. now rewrite Hx, IH.
Qed.

Lemma snoc_not_empty : forall cur c, cur ++ String c "" <> "".
Proof. destruct cur; discriminate. Qed.

Lemma splitFrom_not_nil : forall s inRun cur, splitFrom inRun cur s <> [].
Proof.
  induction s as [|c r IH]; intros inRun cur; simpl; [discriminate|].
  destruct (isLineBreak c); [destruct inRun|]; try apply IH; discriminate.
Qed.

(** What [splitFrom] returns in its two states.  Outside a run the pieces,
    joined by separators, give back the piece being read followed by the rest
    of the text; inside a run the line breaks still to come belong to the
    separator already met. *)
Lemma splitFrom_spec : forall s,
  (forall cur, noLineBreak cur = true ->
     exists seps,
       S (List.length seps) = List.length (splitFrom false cur s)
       /\ Forall (fun sp => isSeparator sp = true) seps
       /\ interleave (splitFrom false cur s) seps = cur ++ s
       /\ Forall (fun p => noLineBreak p = true) (splitFrom false cur s)
       /\ innerNonEmpty (tl (splitFrom false cur s))
       /\ (cur <> "" -> hd_error (splitFrom false cur s) <> Some ""))
  /\ (exists lead seps,
       allLineBreaks lead = true
       /\ S (List.length seps) = List.length (splitFrom true "" s)
       /\ Forall (fun sp => isSeparator sp = true) seps
       /\ lead ++ interleave (splitFrom true "" s) seps = s
       /\ Forall (fun p => noLineBreak p = true) (splitFrom true "" s)
       /\ innerNonEmpty (splitFrom true "" s)).
Proof.
  induction s as [|c r [IHf IHt]].
  - split.
    + intros cur Hcur. exists []. simpl. rewrite append_empty_r.
      repeat split; auto. intros Hne H. now inversion H.
    + exists "", []. simpl. repeat split; auto.
  - destruct (isLineBreak c) eqn:Ec.
    + destruct IHt as (lead & seps & Hlead & Hlen & Hseps & Hjoin & Hno & Hinner).
      split.
      * intros cur Hcur. exists (String c lead :: seps).
        cbn [splitFrom]. rewrite Ec.
        repeat split.
        -- cbn [List.length]. now rewrite Hlen.
        -- constructor; [|exact Hseps].
           unfold isSeparator. simpl. now rewrite Ec, Hlead.
        -- change (cur ++ String c lead ++ interleave (splitFrom true "" r) seps
                   = cur ++ String c r).
           simpl. now rewrite Hjoin.
        -- constructor; assumption.
        -- exact Hinner.
        -- intros Hne H. inversion H. contradiction.
      * exists (String c lead), seps. cbn [splitFrom]. rewrite Ec.
        repeat split; auto.
        -- simpl. now rewrite Ec, Hlead.
        -- simpl. now rewrite Hjoin.
    + assert (Hc : noLineBreak (String c "") = true) by (simpl; now rewrite Ec).
      split.
      * intros cur Hcur.
        destruct (IHf (cur ++ String c "")) as (seps & Hlen & Hseps & Hjoin & Hno & Hinner & Hhd).
        { now apply noLineBreak_snoc. }
        exists seps. simpl. rewrite Ec.
        repeat split; auto.
        -- rewrite Hjoin. now rewrite append_assoc.
        -- intros _. apply Hhd, snoc_not_empty.
      * destruct (IHf (String c "") Hc) as (seps & Hlen & Hseps & Hjoin & Hno & Hinner & Hhd).
        exists "", seps. simpl. rewrite Ec. simpl in *.
        repeat split; auto.
        destruct (splitFrom false (String c "") r) as [|p ps] eqn:Ep; [exact I|].
        simpl in *. destruct ps as [|q qs]; [exact I|].
        split; [|exact Hinner].
        intros ->. apply Hhd; [discriminate | reflexivity].
Qed.

Lemma emitted_app : forall a b, emitted (a ++ b) = (emitted a ++ emitted b)%list.
Proof.
  induction a as [|[t|f d fl] r IH]; intros b; simpl; [reflexivity| |].
  - destruct (resultOf t) as [[c n]|]; simpl; now rewrite IH.
  - now rewrite IH.
Qed.

End SplitFacts.

(** C4. Parsing succeeds on every string.  [split] cuts the text at the
    maximal runs of carriage returns and line feeds: the pieces, in order and
    joined by non-empty runs of line breaks, give back the text, no piece
    holds a line break and only the first and the last piece can be empty.
    There is always a first piece; it is taken off as the header, shown on
    the console (not as a result line), and the loop receives the pieces
    after it.  The empty text has the empty header and no piece left. *)
Theorem parser_total :
  (forall rawTlds, exists header tlds seps,
      split rawTlds = header :: tlds
      /\ List.length seps = List.length tlds
      /\ Forall (fun sp => isSeparator sp = true) seps
      /\ interleave (header :: tlds) seps = rawTlds
      /\ Forall (fun p => noLineBreak p = true) (header :: tlds)
      /\ innerNonEmpty tlds
      /\ shiftHeader (split rawTlds)
         = ([ConsoleLog (Chalk magenta (Plain header))], tlds)
      /\ emitted [ConsoleLog (Chalk magenta (Plain header))] = []
      /\ forall sld body,
           onRawTlds sld body rawTlds
           = ((ConsoleLog (Chalk magenta (Plain header)) :: checkingAll sld
               :: fst (forOf body tlds))%list,
              snd (forOf body tlds)))
  /\ split "" = [""]
  /\ shiftHeader (split "") = ([ConsoleLog (Chalk magenta (Plain ""))], []).
Proof.
  split; [|split; reflexivity].
  intro rawTlds.
  destruct (splitFrom_spec rawTlds) as [Hf _].
  destruct (Hf "" eq_refl) as (seps & Hlen & Hseps & Hjoin & Hno & Hinner & _).
  fold (split rawTlds) in *.
  destruct (split rawTlds) as [|header tlds] eqn:E; [discriminate Hlen|].
  exists header, tlds, seps. simpl in Hlen, Hinner, Hjoin.
  repeat split; auto.
  intros s body. unfold onRawTlds. rewrite E. simpl.
  destruct (forOf body tlds) as [looped launched]. reflexivity.
Qed.

(** ** The loop of the two actions *)

Section LoopFacts.

Variables (sld : string) (max : number).

Lemma forOf_printBody : forall test ignoreUnavailable disablePrefix tlds,
  forOf (printBody sld test ignoreUnavailable disablePrefix max) tlds =
  if test then
    ([], map (fun t => mkCheck (newDomain sld t)
                         (PrintThen disablePrefix ignoreUnavailable))
             (validTlds max tlds))
  else
    (map (fun t => ConsoleLog
                     (resultLine disablePrefix unknownPrefix yellow (newDomain sld t)))
         (validTlds max tlds), []).
Proof.
  intros test ign dp. induction tlds as [|t r IH].
  - now destruct test.
  - cbn [forOf]. rewrite IH. unfold printBody, validTlds. cbn [filter].
    destruct (validateTld t max); destruct test; reflexivity.
Qed.

Lemma forOf_fileBody : forall fileName ignoreUnavailable tlds,
  forOf (fileBody sld fileName ignoreUnavailable max) tlds =
  if ignoreUnavailable then
    ([], map (fun t => mkCheck (newDomain sld t) (FileThen fileName))
             (validTlds max tlds))
  else
    (map (fun t => WriteFile fileName (full (newDomain sld t) ++ newLine) flag_a)
         (validTlds max tlds), []).
Proof.
  intros fileName ign. induction tlds as [|t r IH].
  - now destruct ign.
  - cbn [forOf]. rewrite IH. unfold fileBody, validTlds. cbn [filter].
    destruct (validateTld t max); destruct ign; reflexivity.
Qed.

End LoopFacts.

Lemma action_fulfilled : forall env sld listFile body announce rawTlds,
  loadSource env listFile = (announce, Fulfilled rawTlds) ->
  exists header,
    hd_error (split rawTlds) = Some header
    /\ action env sld listFile body =
       {| trace := announce :: ConsoleLog (Chalk magenta (Plain header))
                   :: checkingAll sld :: fst (forOf body (tl (split rawTlds)));
          inflight := snd (forOf body (tl (split rawTlds)));
          unhandled := None;
          verdicts := [] |}.
Proof.
  intros env s listFile body announce rawTlds Hload.
  unfold action, onRawTlds. rewrite Hload.
  destruct (split rawTlds) as [|header tlds] eqn:E.
  - now apply splitFrom_not_nil in E.
  - exists header. split; [reflexivity|]. simpl.
    destruct (forOf body tlds); reflexivity.
Qed.

Lemma action_rejected : forall env sld listFile body announce e,
  loadSource env listFile = (announce, Rejected e) ->
  action env sld listFile body =
  {| trace := [announce]; inflight := []; unhandled := Some e; verdicts := [] |}.
Proof. intros * Hload. unfold action. now rewrite Hload. Qed.

Lemma emitted_announce : forall env listFile announce p,
  loadSource env listFile = (announce, p) -> emitted [announce] = [].
Proof.
  intros env listFile announce p H. unfold loadSource in H.
  destruct listFile as [f|]; [destruct (truthy f)|]; inversion H; reflexivity.
Qed.

(** ** Settling checks in any order *)

Section Scheduling.

Lemma removeAt_perm : forall (A : Type) (l : list A) i c,
  nth_error l i = Some c -> Permutation (c :: removeAt i l) l.
Proof.
  induction l as [|x r IH]; intros [|i] c H; simpl in *; try discriminate.
  - inversion H. reflexivity.
  - rewrite perm_swap. constructor. now apply IH.
Qed.

Lemma settle_inv : forall lookup i w w',
  settle lookup i w = Some w' ->
  exists c,
    nth_error (inflight w) i = Some c
    /\ trace w' = (trace w ++ resume c (isDomainAvailable lookup (candidate c)))%list
    /\ inflight w' = removeAt i (inflight w)
    /\ unhandled w' = unhandled w
    /\ verdicts w' =
       (verdicts w ++ [(candidate c, isDomainAvailable lookup (candidate c))])%list.
Proof.
  intros lookup i w w' H. unfold settle in H.
  destruct (nth_error (inflight w) i) as [c|]; [|discriminate].
  inversion H; subst. exists c. simpl. repeat split; reflexivity.
Qed.

(** The history of a run: the checks settled so far, with their verdicts,
    account for everything that was added to the trace; together with the
    checks still in flight they are the checks launched by the loop. *)
Lemma steps_history : forall w0 w,
  steps w0 w ->
  exists settled,
    trace w = (trace w0 ++ replay settled)%list
    /\ verdicts w = (verdicts w0 ++ verdictsOf settled)%list
    /\ Permutation (inflight w ++ map fst settled) (inflight w0)
    /\ unhandled w = unhandled w0.
Proof.
  induction 1 as [w|w w1 w2 Hsteps IH Hstep].
  - exists []. simpl. rewrite !app_nil_r. repeat split; reflexivity.
  - destruct IH as (settled & Htr & Hv & Hperm & Hun).
    destruct Hstep as [lookup i w1 w2 Hs].
    apply settle_inv in Hs as (c & Hnth & Htr2 & Hin2 & Hun2 & Hv2).
    exists (settled ++ [(c, isDomainAvailable lookup (candidate c))])%list.
    unfold replay, verdictsOf in *.
    rewrite flat_map_app, !map_app. simpl. rewrite app_nil_r.
    repeat split.
    + now rewrite Htr2, Htr, app_assoc.
    + now rewrite Hv2, Hv, app_assoc.
    + rewrite Hin2, <- Hperm.
      transitivity ((c :: removeAt i (inflight w1)) ++ map fst settled)%list.
      * rewrite app_assoc. apply Permutation_sym.
        apply (Permutation_cons_append (removeAt i (inflight w1) ++ map fst settled) c).
      * apply Permutation_app_tail, removeAt_perm, Hnth.
    + now rewrite Hun2.
Qed.

Lemma steps_trans : forall a b c, steps a b -> steps b c -> steps a c.
Proof.
  intros a b c Hab Hbc. induction Hbc as [|b c1 c2 _ IH Hstep]; [exact Hab|].
  eapply steps_snoc; [apply IH, Hab | exact Hstep].
Qed.

Lemma runSchedule_steps : forall schedule w w',
  runSchedule schedule w = Some w' -> steps w w'.
Proof.
  induction schedule as [|[lookup i] rest IH]; simpl; intros w w' H.
  - inversion H. constructor.
  - destruct (settle lookup i w) as [w1|] eqn:E; [|discriminate].
    eapply steps_trans; [|apply IH, H].
    eapply steps_snoc; [constructor | econstructor; exact E].
Qed.

(** Once nothing is in flight, nothing happens any more. *)
Lemma steps_quiescent : forall w w', inflight w = [] -> steps w w' -> w' = w.
Proof.
  intros w w' Hq Hs. induction Hs as [|w w1 w2 _ IH Hstep]; [reflexivity|].
  specialize (IH Hq). subst w1.
  destruct Hstep as [lookup i w w2 Hs]. unfold settle in Hs.
  rewrite Hq in Hs. destruct i; discriminate.
Qed.

End Scheduling.

(** ** The print action without availability check *)

Lemma resultOf_resultLine : forall disablePrefix prefix c domain,
  isCategory c = true ->
  resultOf (resultLine disablePrefix prefix c domain) = Some (c, full domain).
Proof.
  intros dp prefix c domain Hc. unfold resultLine.
  destruct dp; simpl; now rewrite Hc.
Qed.

Lemma emitted_unknown_lines : forall sld disablePrefix kept,
  emitted (map (fun t => ConsoleLog
                  (resultLine disablePrefix unknownPrefix yellow (newDomain sld t)))
               kept)
  = map (fun t => full (newDomain sld t)) kept.
Proof.
  intros s dp. induction kept as [|t r IH]; [reflexivity|].
  cbn [map emitted]. rewrite resultOf_resultLine by reflexivity. now rewrite IH.
Qed.

(** C6. Without availability check (neither [--test] nor
    [--ignore-unavailable]) the loop launches nothing and leaves nothing to
    happen later: after the three introductory lines the console holds one
    line per TLD that passes validation, in the order of the list, each the
    domain in the colour of the unknown category, behind the unknown prefix
    unless prefixes are disabled. *)
Theorem unchecked_print_in_source_order :
  forall env sld options announce rawTlds,
    p_test options = false ->
    p_ignoreUnavailable options = false ->
    loadSource env (p_list options) = (announce, Fulfilled rawTlds) ->
    let w := printAction env sld options in
    let kept := validTlds (toNumber (p_max options)) (tl (split rawTlds)) in
    let line := fun t => resultLine (p_disablePrefix options) unknownPrefix yellow
                           (newDomain sld t) in
    (exists header,
        hd_error (split rawTlds) = Some header
        /\ trace w = (announce :: ConsoleLog (Chalk magenta (Plain header))
                      :: checkingAll sld :: map (fun t => ConsoleLog (line t)) kept))
    /\ emitted (trace w) = map (fun t => full (newDomain sld t)) kept
    /\ List.length (emitted (trace w)) = List.length kept
    /\ (forall t, resultOf (line t) = Some (yellow, full (newDomain sld t))
                  /\ (p_disablePrefix options = false ->
                      prefixOf (line t) = Some unknownPrefix))
    /\ inflight w = []
    /\ unhandled w = None
    /\ (forall w', steps w w' -> w' = w).
Proof.
  intros env s options announce rawTlds Ht Hi Hload w kept line.
  destruct (action_fulfilled env s (p_list options)
              (printBody s (p_test options || p_ignoreUnavailable options)
                 (p_ignoreUnavailable options) (p_disablePrefix options)
                 (toNumber (p_max options)))
              announce rawTlds Hload) as (header & Hhd & Hw).
  fold (printAction env s options) in Hw. fold w in Hw.
  rewrite forOf_printBody, Ht, Hi in Hw. simpl in Hw. fold kept in Hw.
  assert (Hem : emitted (trace w) = map (fun t => full (newDomain s t)) kept).
  { rewrite Hw. cbn [trace].
    change (emitted ([announce] ++ [ConsoleLog (Chalk magenta (Plain header));
                                    checkingAll s]
                     ++ map (fun t => ConsoleLog (line t)) kept)
            = map (fun t => full (newDomain s t)) kept).
    rewrite !emitted_app, (emitted_announce _ _ _ _ Hload). simpl.
    apply emitted_unknown_lines. }
  split; [|split; [|split; [|split; [|split; [|split]]]]].
  - exists header. split; [exact Hhd|]. now rewrite Hw.
  - exact Hem.
  - now rewrite Hem, length_map.
  - intro t. split.
    + apply resultOf_resultLine. reflexivity.
    + intro Hdp. unfold line, resultLine. now rewrite Hdp.
  - now rewrite Hw.
  - now rewrite Hw.
  - intros w' Hs. apply steps_quiescent; [now rewrite Hw | exact Hs].
Qed.

(** ** [--ignore-unavailable] in print mode *)

(** C8. In print mode [--ignore-unavailable] switches the availability check
    on whether or not [--test] is given: the action runs as with both flags
    set, no line is printed for a candidate before its check settles, and a
    check is launched for every TLD that passes validation. *)
Theorem ignoreUnavailable_implies_test :
  forall env sld options announce rawTlds,
    p_ignoreUnavailable options = true ->
    loadSource env (p_list options) = (announce, Fulfilled rawTlds) ->
    printAction env sld options
    = printAction env sld
        (mkPrintOptions true true (p_max options) (p_list options)
           (p_disablePrefix options))
    /\ inflight (printAction env sld options)
       = map (fun t => mkCheck (newDomain sld t)
                         (PrintThen (p_disablePrefix options) true))
             (validTlds (toNumber (p_max options)) (tl (split rawTlds)))
    /\ emitted (trace (printAction env sld options)) = [].
Proof.
  intros env s options announce rawTlds Hi Hload.
  assert (Heq : printAction env s options
                = printAction env s
                    (mkPrintOptions true true (p_max options) (p_list options)
                       (p_disablePrefix options))).
  { unfold printAction. simpl. rewrite Hi, orb_true_r. reflexivity. }
  split; [exact Heq|].
  destruct (action_fulfilled env s (p_list options)
              (printBody s (p_test options || p_ignoreUnavailable options)
                 (p_ignoreUnavailable options) (p_disablePrefix options)
                 (toNumber (p_max options)))
              announce rawTlds Hload) as (header & Hhd & Hw).
  fold (printAction env s options) in Hw.
  rewrite forOf_printBody, Hi, orb_true_r in Hw. simpl in Hw.
  rewrite Hw. split; [reflexivity|]. cbn [trace].
  change (emitted ([announce] ++ [ConsoleLog (Chalk magenta (Plain header));
                                  checkingAll s]) = []).
  now rewrite emitted_app, (emitted_announce _ _ _ _ Hload).
Qed.

Lemma unchecked_print_in_source_order_witness :
  emitted (trace (printAction scenarioEnv "example"
                    (mkPrintOptions false false (Some (Finite 3)) (Some "tlds.txt") false)))
  = ["example.com"; "example.net"].
Proof.
  destruct (unchecked_print_in_source_order scenarioEnv "example"
              (mkPrintOptions false false (Some (Finite 3)) (Some "tlds.txt") false)
              (gettingFromFile "tlds.txt") scenarioText
              eq_refl eq_refl eq_refl) as (_ & H & _).
  exact H.
Defined.

Lemma ignoreUnavailable_implies_test_witness :
  inflight (printAction scenarioEnv "example"
              (mkPrintOptions false true (Some (Finite 3)) (Some "tlds.txt") false))
  = [mkCheck (mkDomain "example" "com") (PrintThen false true);
     mkCheck (mkDomain "example" "net") (PrintThen false true)].
Proof.
  destruct (ignoreUnavailable_implies_test scenarioEnv "example"
              (mkPrintOptions false true (Some (Finite 3)) (Some "tlds.txt") false)
              (gettingFromFile "tlds.txt") scenarioText
              eq_refl eq_refl) as (_ & H & _).
  exact H.
Defined.

(** ** The availability check *)

Section Availability.

Lemma settle_total : forall lookup i w c,
  nth_error (inflight w) i = Some c ->
  settle lookup i w =
  Some {| trace := (trace w ++ resume c (isDomainAvailable lookup (candidate c)))%list;
          inflight := removeAt i (inflight w);
          unhandled := unhandled w;
          verdicts := (verdicts w
                       ++ [(candidate c, isDomainAvailable lookup (candidate c))])%list |}.
Proof. intros lookup i w c H. unfold settle. now rewrite H. Qed.

Lemma isDomainAvailable_fails : forall lookup domain,
  alwaysFails lookup -> isDomainAvailable lookup domain = true.
Proof.
  intros lookup domain H. unfold isDomainAvailable.
  destruct (H (full domain)) as [code ->]. reflexivity.
Qed.

Lemma runSchedule_all_fail : forall schedule w w',
  Forall (fun li => alwaysFails (fst li)) schedule ->
  runSchedule schedule w = Some w' ->
  exists settled,
    verdicts w' = (verdicts w ++ map (fun c => (candidate c, true)) settled)%list
    /\ Permutation (inflight w' ++ settled) (inflight w)
    /\ unhandled w' = unhandled w.
Proof.
  induction schedule as [|[lookup i] rest IH]; intros w w' Hall Hrun.
  - inversion Hrun; subst. exists []. simpl. rewrite !app_nil_r. auto.
  - inversion Hall as [|? ? Hfail Hrest]; subst. simpl in Hfail, Hrun.
    destruct (settle lookup i w) as [w1|] eqn:E; [|discriminate].
    apply settle_inv in E as (c & Hnth & _ & Hin & Hun & Hv).
    destruct (IH w1 w' Hrest Hrun) as (settled & Hv' & Hperm & Hun').
    exists (c :: settled). repeat split.
    + rewrite Hv', Hv, (isDomainAvailable_fails _ _ Hfail), <- app_assoc.
      reflexivity.
    + rewrite <- (removeAt_perm _ _ _ _ Hnth), <- Hin, <- Hperm.
      apply Permutation_sym, Permutation_middle.
    + now rewrite Hun'.
Qed.

Lemma runSchedule_drains : forall lookups w,
  List.length lookups = List.length (inflight w) ->
  exists w',
    runSchedule (map (fun lookup => (lookup, 0)) lookups) w = Some w'
    /\ inflight w' = []
    /\ unhandled w' = unhandled w.
Proof.
  induction lookups as [|lookup rest IH]; intros w Hlen.
  - exists w. destruct (inflight w); [auto | discriminate].
  - destruct (inflight w) as [|c cs] eqn:E; [discriminate|].
    cbn [map runSchedule].
    rewrite (settle_total lookup 0 w c) by now rewrite E.
    rewrite E. cbn [removeAt].
    match goal with |- context [runSchedule _ ?w1] =>
      destruct (IH w1) as (w' & Hrun & Hq & Hun) end.
    { simpl in *. lia. }
    exists w'. auto.
Qed.

End Availability.

(** C1. The check of a candidate answers Unavailable ([false]) exactly when
    the lookup of its [full] name returns an address, and Available ([true])
    exactly when the lookup fails, whatever the error.  A check that settles
    always runs its callback, removes itself from the checks in flight and
    leaves the others and the run untouched; whatever the lookups answer, the
    checks can all be settled; and in a run where every lookup fails, every
    candidate settled is classified Available. *)
Theorem lookup_failure_means_available :
  (forall lookup domain,
      (isDomainAvailable lookup domain = false
       <-> exists address, lookup (full domain) = Address address)
      /\ (isDomainAvailable lookup domain = true
          <-> exists code, lookup (full domain) = LookupError code))
  /\ (forall lookup i w c,
        nth_error (inflight w) i = Some c ->
        exists w',
          settle lookup i w = Some w'
          /\ inflight w' = removeAt i (inflight w)
          /\ unhandled w' = unhandled w
          /\ verdicts w' =
             (verdicts w
              ++ [(candidate c, isDomainAvailable lookup (candidate c))])%list)
  /\ (forall lookups w,
        List.length lookups = List.length (inflight w) ->
        exists w',
          runSchedule (map (fun lookup => (lookup, 0)) lookups) w = Some w'
          /\ inflight w' = []
          /\ unhandled w' = unhandled w)
  /\ (forall schedule w w',
        Forall (fun li => alwaysFails (fst li)) schedule ->
        runSchedule schedule w = Some w' ->
        exists settled,
          verdicts w' = (verdicts w ++ map (fun c => (candidate c, true)) settled)%list
          /\ Permutation (inflight w' ++ settled) (inflight w)
          /\ unhandled w' = unhandled w).
Proof.
  split; [|split; [|split]].
  - intros lookup domain. unfold isDomainAvailable.
    destruct (lookup (full domain)) as [a|code]; split; split;
      try discriminate; try reflexivity.
    + intros _. now exists a.
    + intros [code H]. discriminate H.
    + intros [a H]. discriminate H.
    + intros _. now exists code.
  - intros lookup i w c Hnth. eexists. split; [apply settle_total, Hnth|].
    simpl. auto.
  - apply runSchedule_drains.
  - apply runSchedule_all_fail.
Qed.

Lemma lookup_failure_means_available_witness :
  exists w' settled,
    runSchedule [(nxdomain, 1); (nxdomain, 0)]
      (printAction scenarioEnv "example"
         (mkPrintOptions true false (Some (Finite 3)) (Some "tlds.txt") false))
    = Some w'
    /\ verdicts w' = map (fun c => (candidate c, true)) settled
    /\ Permutation (inflight w' ++ settled)
         [mkCheck (mkDomain "example" "com") (PrintThen false false);
          mkCheck (mkDomain "example" "net") (PrintThen false false)]
    /\ unhandled w' = None.
Proof.
  assert (Hfail : Forall (fun li : Resolver * nat => alwaysFails (fst li))
                    [(nxdomain, 1); (nxdomain, 0)]).
  { repeat constructor; intro hostname; exists "ENOTFOUND"; reflexivity. }
  destruct (runSchedule [(nxdomain, 1); (nxdomain, 0)]
              (printAction scenarioEnv "example"
                 (mkPrintOptions true false (Some (Finite 3)) (Some "tlds.txt") false)))
    as [w'|] eqn:E; [|vm_compute in E; discriminate E].
  destruct lookup_failure_means_available as (_ & _ & _ & H).
  destruct (H _ _ _ Hfail E) as (settled & Hv & Hperm & Hun).
  exists w', settled. repeat split; assumption.
Defined.

(** ** What a run emits *)

Section Emission.

Lemma string_length_append : forall a b,
  String.length (a ++ b) = String.length a + String.length b.
Proof. induction a as [|c r IH]; intros; simpl; [reflexivity | now rewrite IH]. Qed.

Lemma substring_prefix : forall a b, String.substring 0 (String.length a) (a ++ b) = a.
Proof.
  induction a as [|c r IH]; intros b; simpl.
  - now destruct b.
  - now rewrite IH.
Qed.

Lemma dropLast_newLine : forall s, dropLast (s ++ newLine) = s.
Proof.
  intro s. unfold dropLast. rewrite string_length_append. simpl String.length.
  replace (String.length s + 1 - 1) with (String.length s) by lia.
  apply substring_prefix.
Qed.

Lemma emitted_resume : forall c available,
  emitted (resume c available) =
  match onFulfilled c with
  | PrintThen _ ignoreUnavailable =>
      if available || negb ignoreUnavailable then [full (candidate c)] else []
  | FileThen _ => if available then [full (candidate c)] else []
  end.
Proof.
  intros c available. unfold resume.
  destruct (onFulfilled c) as [dp ign|f].
  - destruct available; simpl.
    + now rewrite resultOf_resultLine.
    + destruct ign; simpl; [reflexivity | now rewrite resultOf_resultLine].
  - destruct available; simpl; [now rewrite dropLast_newLine | reflexivity].
Qed.

Lemma emitted_replay_in : forall settled name,
  In name (emitted (replay settled)) ->
  exists c, In c (map fst settled) /\ name = full (candidate c).
Proof.
  induction settled as [|[c b] r IH]; intros name H; [contradiction|].
  unfold replay in H. cbn [flat_map fst snd] in H.
  rewrite emitted_app in H. apply in_app_or in H as [H|H].
  - exists c. split; [now left|].
    rewrite emitted_resume in H.
    destruct (onFulfilled c) as [dp ign|f];
      [destruct (b || negb ign) | destruct b]; simpl in H;
      try contradiction; destruct H as [H|[]]; now symmetry.
  - destruct (IH name H) as (c' & Hin & Heq). exists c'. split; [now right | exact Heq].
Qed.

Lemma emitted_file_lines : forall sld fileName kept,
  emitted (map (fun t => WriteFile fileName (full (newDomain sld t) ++ newLine) flag_a)
               kept)
  = map (fun t => full (newDomain sld t)) kept.
Proof.
  intros s f. induction kept as [|t r IH]; [reflexivity|].
  cbn [map emitted]. now rewrite dropLast_newLine, IH.
Qed.

(** Where a run starts once the source is read: the domains of the lines
    written by the loop and those of the checks it launched are built from
    the valid lines after the first. *)
Lemma run_start : forall env sld cmd announce rawTlds,
  loadSource env (listOf cmd) = (announce, Fulfilled rawTlds) ->
  let names := map (fun t => full (newDomain sld t))
                   (validTlds (maxOf cmd) (tl (split rawTlds))) in
  (forall name, In name (emitted (trace (run env sld cmd))) -> In name names)
  /\ (forall c, In c (inflight (run env sld cmd)) -> In (full (candidate c)) names).
Proof.
  intros env s cmd announce rawTlds Hload names.
  destruct cmd as [options|fileName options]; cbn [run listOf maxOf] in *.
  - destruct (action_fulfilled env s (p_list options)
                (printBody s (p_test options || p_ignoreUnavailable options)
                   (p_ignoreUnavailable options) (p_disablePrefix options)
                   (toNumber (p_max options)))
                announce rawTlds Hload) as (header & _ & Hw).
    fold (printAction env s options) in Hw. rewrite Hw, forOf_printBody.
    cbn [trace inflight].
    change (announce :: ConsoleLog (Chalk magenta (Plain header)) :: checkingAll s :: ?l)
      with ([announce] ++ [ConsoleLog (Chalk magenta (Plain header)); checkingAll s] ++ l)%list.
    rewrite !emitted_app, (emitted_announce _ _ _ _ Hload).
    destruct (p_test options || p_ignoreUnavailable options); cbn [fst snd].
    + split; [intros name []|].
      intros c Hc. apply in_map_iff in Hc as (t & <- & Ht).
      apply in_map_iff. now exists t.
    + split; [|intros c []].
      intros name Hn. simpl in Hn. now rewrite emitted_unknown_lines in Hn.
  - destruct (action_fulfilled env s (f_list options)
                (fileBody s fileName (f_ignoreUnavailable options)
                   (toNumber (f_max options)))
                announce rawTlds Hload) as (header & _ & Hw).
    fold (fileAction env s fileName options) in Hw. rewrite Hw, forOf_fileBody.
    cbn [trace inflight].
    change (announce :: ConsoleLog (Chalk magenta (Plain header)) :: checkingAll s :: ?l)
      with ([announce] ++ [ConsoleLog (Chalk magenta (Plain header)); checkingAll s] ++ l)%list.
    rewrite !emitted_app, (emitted_announce _ _ _ _ Hload).
    destruct (f_ignoreUnavailable options); cbn [fst snd].
    + split; [intros name []|].
      intros c Hc. apply in_map_iff in Hc as (t & <- & Ht).
      apply in_map_iff. now exists t.
    + split; [|intros c []].
      intros name Hn. simpl in Hn. now rewrite emitted_file_lines in Hn.
Qed.

End Emission.

(** C5, as stated, fails: the text of the header is emitted as a candidate
    when a later line repeats it, in print mode and in file mode. *)
Lemma repeated_header_is_emitted :
  hd_error (split repeatedHeaderText) = Some "# tlds"
  /\ In (full (newDomain "example" "# tlds"))
        (emitted (trace (run repeatedHeaderEnv "example"
                           (Print (mkPrintOptions false false None (Some "tlds.txt") false)))))
  /\ In (full (newDomain "example" "# tlds"))
        (emitted (trace (run repeatedHeaderEnv "example"
                           (File "out.txt" (mkFileOptions false None (Some "tlds.txt")))))).
Proof.
  split; [reflexivity|]. split; vm_compute; left; reflexivity.
Qed.

(** C5, amended. The first piece of the text is taken off before the loop and
    yields no candidate of its own: in print mode and in file mode, at every
    moment of a run, each emitted candidate is built from a line after the
    first one that passes validation; the text of the header is emitted only
    when such a later line repeats it. *)
Theorem emitted_come_after_header :
  forall env sld cmd announce rawTlds w name,
    loadSource env (listOf cmd) = (announce, Fulfilled rawTlds) ->
    steps (run env sld cmd) w ->
    In name (emitted (trace w)) ->
    exists t,
      In t (tl (split rawTlds))
      /\ validateTld t (maxOf cmd) = true
      /\ name = full (newDomain sld t).
Proof.
  intros env s cmd announce rawTlds w name Hload Hsteps Hname.
  destruct (run_start env s cmd announce rawTlds Hload) as [Htrace Hflight].
  assert (Hin : In name (map (fun t => full (newDomain s t))
                           (validTlds (maxOf cmd) (tl (split rawTlds))))).
  { destruct (steps_history _ _ Hsteps) as (settled & Htr & _ & Hperm & _).
    rewrite Htr, emitted_app in Hname. apply in_app_or in Hname as [H|H].
    - now apply Htrace.
    - apply emitted_replay_in in H as (c & Hc & ->).
      apply Hflight. apply (Permutation_in _ Hperm). apply in_or_app. now right. }
  apply in_map_iff in Hin as (t & <- & Ht).
  apply filter_In in Ht as [Ht Hv]. now exists t.
Qed.

Lemma emitted_come_after_header_witness :
  exists t,
    In t (tl (split repeatedHeaderText))
    /\ validateTld t NaN = true
    /\ "example.com" = full (newDomain "example" t).
Proof.
  apply (emitted_come_after_header repeatedHeaderEnv "example"
           (Print (mkPrintOptions false false None (Some "tlds.txt") false))
           (gettingFromFile "tlds.txt") repeatedHeaderText
           (run repeatedHeaderEnv "example"
              (Print (mkPrintOptions false false None (Some "tlds.txt") false)))
           "example.com").
  - reflexivity.
  - apply steps_refl.
  - vm_compute. right. left. reflexivity.
Defined.

(** ** File mode with [--ignore-unavailable] *)

Section FileSink.

Variable fileName : string.

Lemma writesTo_app : forall f a b,
  writesTo f (a ++ b) = (writesTo f a ++ writesTo f b)%list.
Proof.
  induction a as [|[t|g d fl] r IH]; intros b; simpl; [reflexivity|apply IH|].
  destruct (String.eqb g f); simpl; now rewrite IH.
Qed.

Lemma writesTo_announce : forall env listFile announce p f,
  loadSource env listFile = (announce, p) -> writesTo f [announce] = [].
Proof.
  intros env listFile announce p f H. unfold loadSource in H.
  destruct listFile as [g|]; [destruct (truthy g)|]; inversion H; reflexivity.
Qed.

Lemma resume_file : forall c available,
  onFulfilled c = FileThen fileName ->
  resume c available
  = if available then [WriteFile fileName (lineOf (candidate c)) flag_a] else [].
Proof. intros c available H. unfold resume. now rewrite H. Qed.

Lemma replay_file : forall settled,
  Forall (fun c => onFulfilled c = FileThen fileName) (map fst settled) ->
  writesTo fileName (replay settled)
  = map (fun d => (lineOf d, flag_a)) (availableIn (verdictsOf settled))
  /\ emitted (replay settled) = map full (availableIn (verdictsOf settled))
  /\ forall other, other <> fileName -> writesTo other (replay settled) = [].
Proof.
  induction settled as [|[c b] r IH]; intro Hall.
  - repeat split.
  - cbn [map fst] in Hall. inversion Hall as [|? ? Hc Hr]; subst.
    destruct (IH Hr) as (IHw & IHe & IHo).
    unfold replay, verdictsOf, availableIn in *.
    cbn [flat_map map fst snd filter].
    rewrite writesTo_app, emitted_app, IHw, IHe.
    rewrite (resume_file c b Hc).
    destruct b; cbn [filter map fst snd writesTo emitted app].
    + rewrite String.eqb_refl.
      replace (dropLast (lineOf (candidate c))) with (full (candidate c))
        by (symmetry; apply dropLast_newLine).
      repeat split.
      intros other Hne. rewrite (IHo other Hne).
      apply not_eq_sym, String.eqb_neq in Hne. now rewrite Hne.
    + repeat split. exact IHo.
Qed.

End FileSink.

(** The history of a run of the file action with [--ignore-unavailable]:
    only checks of that action settle. *)
Lemma file_run_history :
  forall env sld fileName options announce rawTlds w,
    f_ignoreUnavailable options = true ->
    loadSource env (f_list options) = (announce, Fulfilled rawTlds) ->
    steps (fileAction env sld fileName options) w ->
    exists header settled,
      trace w = ([announce; ConsoleLog (Chalk magenta (Plain header)); checkingAll sld]
                 ++ replay settled)%list
      /\ verdicts w = verdictsOf settled
      /\ Forall (fun c => onFulfilled c = FileThen fileName) (map fst settled)
      /\ Permutation (inflight w ++ map fst settled)
           (map (fun t => mkCheck (newDomain sld t) (FileThen fileName))
                (validTlds (toNumber (f_max options)) (tl (split rawTlds)))).
Proof.
  intros env s fileName options announce rawTlds w Hi Hload Hsteps.
  destruct (action_fulfilled env s (f_list options)
              (fileBody s fileName (f_ignoreUnavailable options)
                 (toNumber (f_max options)))
              announce rawTlds Hload) as (header & _ & Hw0).
  fold (fileAction env s fileName options) in Hw0.
  rewrite forOf_fileBody, Hi in Hw0. cbn [fst snd] in Hw0.
  destruct (steps_history _ _ Hsteps) as (settled & Htr & Hv & Hperm & _).
  rewrite Hw0 in Htr, Hv, Hperm. cbn [trace verdicts inflight] in Htr, Hv, Hperm.
  exists header, settled. repeat split; try assumption.
  apply Forall_forall. intros c Hc.
  assert (Hin : In c (inflight w ++ map fst settled)%list)
    by (apply in_or_app; now right).
  apply (Permutation_in _ Hperm) in Hin.
  apply in_map_iff in Hin as (t & <- & _). reflexivity.
Qed.

Lemma writesTo_intro : forall env listFile announce p header sld f,
  loadSource env listFile = (announce, p) ->
  writesTo f [announce; ConsoleLog (Chalk magenta (Plain header)); checkingAll sld] = [].
Proof.
  intros env listFile announce p header s f Hload.
  change (writesTo f ([announce] ++ [ConsoleLog (Chalk magenta (Plain header));
                                     checkingAll s]) = []).
  now rewrite writesTo_app, (writesTo_announce _ _ _ _ f Hload).
Qed.

(** ** Line feeds in the lines requested *)

Section LineFeeds.

Lemma countChar_append : forall c a b,
  countChar c (a ++ b) = countChar c a + countChar c b.
Proof.
  induction a as [|x r IH]; intros b; simpl; [reflexivity|].
  rewrite IH. lia.
Qed.

Lemma lowerChar_LF : forall c, Ascii.eqb (lowerChar c) LF = Ascii.eqb c LF.
Proof. destruct c as [[] [] [] [] [] [] [] []]; reflexivity. Qed.

Lemma countChar_toLowerCase : forall s, countChar LF (toLowerCase s) = countChar LF s.
Proof.
  induction s as [|c r IH]; simpl; [reflexivity|]. now rewrite lowerChar_LF, IH.
Qed.

Lemma countChar_trimStart : forall s, countChar LF s = 0 -> countChar LF (trimStart s) = 0.
Proof.
  induction s as [|c r IH]; simpl; intro H; [reflexivity|].
  destruct (isWhiteSpace c); [apply IH; lia | exact H].
Qed.

Lemma countChar_trimEnd : forall s, countChar LF s = 0 -> countChar LF (trimEnd s) = 0.
Proof.
  induction s as [|c r IH]; simpl; intro H; [reflexivity|].
  destruct (isWhiteSpace c && isEmpty (trimEnd r)); [reflexivity|].
  simpl. rewrite IH; lia.
Qed.

Lemma noLineBreak_countChar : forall s, noLineBreak s = true -> countChar LF s = 0.
Proof.
  induction s as [|c r IH]; simpl; intro H; [reflexivity|].
  apply andb_true_iff in H as [Hc Hr]. rewrite (IH Hr).
  unfold isLineBreak in Hc. apply negb_true_iff, orb_false_iff in Hc as [_ Hlf].
  now rewrite Hlf.
Qed.

Lemma lineOf_one_line : forall sld t,
  countChar LF sld = 0 -> countChar LF t = 0 ->
  lineCount (lineOf (newDomain sld t)) = 1.
Proof.
  intros s t Hs Ht. unfold lineCount, lineOf.
  rewrite full_newDomain, !countChar_append, !countChar_toLowerCase.
  unfold trim. rewrite !countChar_trimEnd by now apply countChar_trimStart.
  reflexivity.
Qed.

(** When the SLD holds no line feed, the line requested for a candidate that
    was classified Available holds exactly one. *)
Lemma available_lines_one_feed :
  forall env sld fileName options announce rawTlds w,
    countChar LF sld = 0 ->
    f_ignoreUnavailable options = true ->
    loadSource env (f_list options) = (announce, Fulfilled rawTlds) ->
    steps (fileAction env sld fileName options) w ->
    Forall (fun d => lineCount (lineOf d) = 1) (availableIn (verdicts w)).
Proof.
  intros env s fileName options announce rawTlds w Hs Hi Hload Hsteps.
  destruct (file_run_history env s fileName options announce rawTlds w Hi Hload Hsteps)
    as (header & settled & _ & Hv & _ & Hperm).
  rewrite Hv. apply Forall_forall. intros d Hd.
  unfold availableIn, verdictsOf in Hd.
  apply in_map_iff in Hd as ([d' b] & <- & Hd). apply filter_In in Hd as [Hd _].
  apply in_map_iff in Hd as ([c b'] & Heq & Hc). inversion Heq; subst.
  assert (Hin : In c (inflight w ++ map fst settled)%list).
  { apply in_or_app. right. apply in_map_iff.
    eexists. split; [|exact Hc]. reflexivity. }
  apply (Permutation_in _ Hperm) in Hin.
  apply in_map_iff in Hin as (t & <- & Ht). apply filter_In in Ht as [Ht _].
  cbn [fst candidate]. apply lineOf_one_line; [exact Hs|].
  apply noLineBreak_countChar.
  destruct (splitFrom_spec rawTlds) as [Hf _].
  destruct (Hf "" eq_refl) as (_ & _ & _ & _ & Hno & _).
  fold (split rawTlds) in Hno. rewrite Forall_forall in Hno. apply Hno.
  destruct (split rawTlds); [contradiction | now right].
Qed.

End LineFeeds.

(** C7, as stated, fails: the number of lines of the file is not the number
    of candidates classified Available.  With a line feed inside the SLD two
    Available candidates give two requests that hold four line feeds, and
    with a file that already has a line the count is three, even when every
    write is performed. *)
Lemma line_count_is_not_available_count :
  option_map
    (fun w => (List.length (availableIn (verdicts w)),
               map fst (writesTo "out.txt" (trace w)),
               lineCount (fileAfter "" (writesTo "out.txt" (trace w)))))
    (runSchedule [(nxdomain, 0); (nxdomain, 0)]
       (fileAction scenarioEnv twoLineSld "out.txt"
          (mkFileOptions true (Some (Finite 3)) (Some "tlds.txt"))))
  = Some (2,
          [twoLineSld ++ ".com" ++ newLine; twoLineSld ++ ".net" ++ newLine],
          4)
  /\ option_map
       (fun w => (List.length (availableIn (verdicts w)),
                  lineCount (fileAfter ("old.org" ++ newLine)
                               (writesTo "out.txt" (trace w)))))
       (runSchedule [(nxdomain, 0); (nxdomain, 0)]
          (fileAction scenarioEnv "example" "out.txt"
             (mkFileOptions true (Some (Finite 3)) (Some "tlds.txt"))))
     = Some (2, 3).
Proof. split; reflexivity. Qed.

(** C7, amended. In file mode with [--ignore-unavailable], at every moment of
    a run the write requests made for the output file are exactly one append
    of the domain followed by a line feed for each candidate whose check
    answered Available, in the order the checks settled: an append is
    requested for a domain exactly when it was classified Available, the
    number of requests is the number of candidates classified Available, no
    other file is written, every candidate of the list is either still being
    checked or has its verdict, and when the SLD holds no line feed each
    requested line holds exactly one. *)
Theorem appends_requested_for_available_only :
  forall env sld fileName options announce rawTlds w,
    f_ignoreUnavailable options = true ->
    loadSource env (f_list options) = (announce, Fulfilled rawTlds) ->
    steps (fileAction env sld fileName options) w ->
    let available := availableIn (verdicts w) in
    writesTo fileName (trace w) = map (fun d => (lineOf d, flag_a)) available
    /\ List.length (writesTo fileName (trace w)) = List.length available
    /\ emitted (trace w) = map full available
    /\ (forall other, other <> fileName -> writesTo other (trace w) = [])
    /\ Permutation (map candidate (inflight w) ++ map fst (verdicts w))
         (candidates sld (toNumber (f_max options)) (tl (split rawTlds)))
    /\ (countChar LF sld = 0 ->
        Forall (fun x => lineCount (fst x) = 1) (writesTo fileName (trace w))).
Proof.
  intros env s fileName options announce rawTlds w Hi Hload Hsteps available.
  destruct (file_run_history env s fileName options announce rawTlds w Hi Hload Hsteps)
    as (header & settled & Htr & Hv & Hall & Hperm).
  destruct (replay_file fileName settled Hall) as (Hwr & Hem & Hother).
  assert (Hwrites : writesTo fileName (trace w)
                    = map (fun d => (lineOf d, flag_a)) available).
  { rewrite Htr, writesTo_app, (writesTo_intro _ _ _ _ _ _ _ Hload), Hwr.
    unfold available. now rewrite Hv. }
  split; [exact Hwrites|]. split; [now rewrite Hwrites, length_map|].
  split; [|split; [|split]].
  - rewrite Htr.
    change (emitted (([announce] ++ [ConsoleLog (Chalk magenta (Plain header));
                                     checkingAll s]) ++ replay settled)
            = map full available).
    rewrite !emitted_app, (emitted_announce _ _ _ _ Hload), Hem.
    unfold available. now rewrite Hv.
  - intros other Hne.
    now rewrite Htr, writesTo_app, (writesTo_intro _ _ _ _ _ _ _ Hload),
      (Hother other Hne).
  - rewrite Hv. unfold verdictsOf. rewrite map_map. cbn [fst].
    rewrite <- (map_map fst candidate), <- map_app.
    unfold candidates.
    rewrite <- (map_map (fun t => mkCheck (newDomain s t) (FileThen fileName)) candidate).
    apply Permutation_map, Hperm.
  - intro Hs. rewrite Hwrites. apply Forall_map. cbn [fst].
    exact (available_lines_one_feed env s fileName options announce rawTlds w
             Hs Hi Hload Hsteps).
Qed.

Lemma appends_requested_for_available_only_witness :
  exists w',
    runSchedule [(nxdomain, 1); (resolves, 0)]
      (fileAction scenarioEnv "example" "out.txt"
         (mkFileOptions true (Some (Finite 3)) (Some "tlds.txt")))
    = Some w'
    /\ availableIn (verdicts w') = [mkDomain "example" "net"]
    /\ writesTo "out.txt" (trace w')
       = map (fun d => (lineOf d, flag_a)) (availableIn (verdicts w'))
    /\ List.length (writesTo "out.txt" (trace w'))
       = List.length (availableIn (verdicts w')).
Proof.
  destruct (runSchedule [(nxdomain, 1); (resolves, 0)]
              (fileAction scenarioEnv "example" "out.txt"
                 (mkFileOptions true (Some (Finite 3)) (Some "tlds.txt"))))
    as [w'|] eqn:E; [|vm_compute in E; discriminate E].
  exists w'. split; [reflexivity|].
  split; [vm_compute in E; inversion E; reflexivity|].
  destruct (appends_requested_for_available_only scenarioEnv "example" "out.txt"
              (mkFileOptions true (Some (Finite 3)) (Some "tlds.txt"))
              (gettingFromFile "tlds.txt") scenarioText w'
              eq_refl eq_refl (runSchedule_steps _ _ _ E)) as (H1 & H2 & _).
  split; assumption.
Defined.

(** ** Failures of the source *)

(** When the source promise rejects: the file cannot be read, the request
    fails, or the body of the response cannot be read.  The status of the
    response is not looked at. *)
Lemma loadSource_rejected : forall env listFile announce e,
  loadSource env listFile = (announce, Rejected e) <->
  (exists f, listFile = Some f /\ truthy f = true
             /\ announce = gettingFromFile f /\ readFile env f = Rejected e)
  \/ ((listFile = None \/ listFile = Some "")
      /\ announce = gettingFromUrl
      /\ (nodefetch env tldUrl = Rejected e
          \/ exists res, nodefetch env tldUrl = Fulfilled res
                         /\ resText res = Rejected e)).
Proof.
  intros env listFile announce e. unfold loadSource, fetchText. split.
  - destruct listFile as [f|]; [destruct (truthy f) eqn:Ef|].
    + intro H. inversion H; subst. left. exists f. auto.
    + intro H. right. apply truthy_false in Ef. subst f.
      destruct (nodefetch env tldUrl) as [res|e'] eqn:En; inversion H; subst.
      * repeat split; auto. right. now exists res.
      * repeat split; auto.
    + intro H. right.
      destruct (nodefetch env tldUrl) as [res|e'] eqn:En; inversion H; subst.
      * repeat split; auto. right. now exists res.
      * repeat split; auto.
  - intros [(f & -> & Ht & -> & Hr)|(Hl & -> & Hn)].
    + now rewrite Ht, Hr.
    + assert (E : match nodefetch env tldUrl with
                  | Fulfilled res => resText res
                  | Rejected e0 => Rejected e0
                  end = Rejected e).
      { destruct Hn as [->|(res & -> & Hres)]; [reflexivity | exact Hres]. }
      destruct Hl as [->| ->]; simpl; now rewrite E.
Qed.

(** C9, as stated, fails: a 404 response is no failure for the loader; the
    page it carries is parsed as the list, its lines after the first become
    candidates and no error is raised. *)
Lemma not_found_page_is_processed :
  emitted (trace (run notFoundEnv "example"
                    (Print (mkPrintOptions false false None None false))))
  = ["example.<body>404</body>"; "example.</html>"]
  /\ unhandled (run notFoundEnv "example"
                  (Print (mkPrintOptions false false None None false))) = None.
Proof. split; reflexivity. Qed.

(** C9, amended. When the source promise rejects (unreadable file, failed
    request, unreadable body) the run is over before any candidate is
    processed: in both modes the run has written its announcement only, emits
    no candidate, requests no write, launches no check and stays so; the
    rejection finds no handler, so the process ends with a non-zero exit code
    and the error on the error stream.  A run whose source was read always
    shows the line that announces the checks, which the failed run never
    does.  A response is read whatever its status. *)
Theorem rejected_source_emits_nothing :
  forall env sld cmd announce e w,
    loadSource env (listOf cmd) = (announce, Rejected e) ->
    steps (run env sld cmd) w ->
    w = {| trace := [announce]; inflight := []; unhandled := Some e; verdicts := [] |}
    /\ emitted (trace w) = []
    /\ (forall f, writesTo f (trace w) = [])
    /\ (exists code, ending w = Some (code, e) /\ code <> 0)
    /\ ~ In (checkingAll sld) (trace w)
    /\ (forall env' cmd' announce' rawTlds w',
          loadSource env' (listOf cmd') = (announce', Fulfilled rawTlds) ->
          steps (run env' sld cmd') w' -> In (checkingAll sld) (trace w'))
    /\ (forall env' code body,
          nodefetch env' tldUrl = Fulfilled (mkResponse code (Fulfilled body)) ->
          fetchText env' tldUrl = Fulfilled body).
Proof.
  intros env s cmd announce e w Hload Hsteps.
  assert (Hrun : run env s cmd
                 = {| trace := [announce]; inflight := []; unhandled := Some e;
                      verdicts := [] |}).
  { destruct cmd as [options|fileName options]; cbn [run listOf] in *;
      [unfold printAction | unfold fileAction]; now apply action_rejected. }
  assert (Hw : w = run env s cmd).
  { apply steps_quiescent; [now rewrite Hrun | exact Hsteps]. }
  rewrite Hw, Hrun. cbn [trace].
  split; [reflexivity|]. split; [apply (emitted_announce _ _ _ _ Hload)|].
  split; [intro f; apply (writesTo_announce _ _ _ _ f Hload)|].
  split; [exists 1; split; [reflexivity | discriminate]|].
  split; [|split].
  - intros [H|[]]. unfold loadSource in Hload.
    destruct (listOf cmd) as [f|]; [destruct (truthy f)|];
      inversion Hload as [[Ha Hp]]; rewrite <- Ha in H; discriminate H.
  - intros env' cmd' announce' rawTlds w' Hload' Hsteps'.
    destruct (steps_history _ _ Hsteps') as (settled & Htr & _).
    rewrite Htr. apply in_or_app. left.
    destruct cmd' as [options|fileName options]; cbn [run listOf] in *;
      [unfold printAction | unfold fileAction];
      match goal with |- In _ (trace (action ?a ?b ?c ?d)) =>
        destruct (action_fulfilled a b c d announce' rawTlds Hload')
          as (header & _ & ->) end; cbn [trace]; right; right; now left.
  - intros env' code body Hn. unfold fetchText. now rewrite Hn.
Qed.

Lemma rejected_source_emits_nothing_witness :
  run offlineEnv "example" (Print (mkPrintOptions true false None None false))
  = {| trace := [gettingFromUrl]; inflight := [];
       unhandled := Some (FetchError "ENETUNREACH"); verdicts := [] |}
  /\ emitted (trace (run offlineEnv "example"
                       (Print (mkPrintOptions true false None None false)))) = []
  /\ ending (run offlineEnv "example"
               (Print (mkPrintOptions true false None None false)))
     = Some (1, FetchError "ENETUNREACH").
Proof.
  destruct (rejected_source_emits_nothing offlineEnv "example"
              (Print (mkPrintOptions true false None None false))
              gettingFromUrl (FetchError "ENETUNREACH")
              (run offlineEnv "example"
                 (Print (mkPrintOptions true false None None false)))
              eq_refl (steps_refl _)) as (H1 & H2 & _).
  repeat split; assumption.
Defined.

(** * Further properties of the code *)

(** ** Normal form of a [Domain] *)

Section Normalisation.

Lemma trimStart_trim : forall s, trimStart (trim s) = trim s.
Proof. intro s. apply trimStart_clean, startsClean_trim. Qed.

Lemma trim_idem : forall s, trim (trim s) = trim s.
Proof. intro s. unfold trim at 1. now rewrite trimStart_trim, trimEnd_trim. Qed.

Lemma trimStart_allWhiteSpace : forall s, allWhiteSpace s = true -> trimStart s = "".
Proof.
  induction s as [|c r IH]; simpl; [reflexivity|].
  intro H. apply andb_true_iff in H as [Hc Hr]. rewrite Hc. now apply IH.
Qed.

Lemma trimStart_pad : forall l s, allWhiteSpace l = true -> trimStart (l ++ s) = trimStart s.
Proof.
  induction l as [|c r IH]; simpl; intros s H; [reflexivity|].
  apply andb_true_iff in H as [Hc Hr]. rewrite Hc. now apply IH.
Qed.

Lemma trimEnd_allWhiteSpace : forall s, allWhiteSpace s = true -> trimEnd s = "".
Proof.
  induction s as [|c r IH]; simpl; [reflexivity|].
  intro H. apply andb_true_iff in H as [Hc Hr]. now rewrite Hc, (IH Hr).
Qed.

Lemma trimEnd_pad : forall s r, allWhiteSpace r = true -> trimEnd (s ++ r) = trimEnd s.
Proof.
  induction s as [|c t IH]; simpl; intros r H.
  - now apply trimEnd_allWhiteSpace.
  - now rewrite (IH r H).
Qed.

Lemma trimStart_append : forall a r,
  trimStart (a ++ r) = if isEmpty (trimStart a) then trimStart r else trimStart a ++ r.
Proof.
  induction a as [|c t IH]; intro r; simpl; [reflexivity|].
  destruct (isWhiteSpace c); [apply IH | reflexivity].
Qed.

(** White space around a string does not survive [trim]. *)
Lemma trim_pad : forall l s r,
  allWhiteSpace l = true -> allWhiteSpace r = true -> trim (l ++ s ++ r) = trim s.
Proof.
  intros l s r Hl Hr. unfold trim. rewrite (trimStart_pad l _ Hl), trimStart_append.
  destruct (isEmpty (trimStart s)) eqn:E.
  - apply isEmpty_true in E. now rewrite E, (trimStart_allWhiteSpace r Hr).
  - now apply trimEnd_pad.
Qed.

End Normalisation.

(** X1. A built [Domain] is in normal form: building again from its two
    fields returns the same value, and [full] is the two stored fields joined
    by a dot. *)
Theorem newDomain_normal_form : forall a b,
  newDomain (sld (newDomain a b)) (tld (newDomain a b)) = newDomain a b
  /\ full (newDomain a b) = sld (newDomain a b) ++ "." ++ tld (newDomain a b).
Proof.
  intros a b. split.
  - unfold newDomain; simpl.
    now rewrite <- !trim_toLowerCase, !toLowerCase_idem, !trim_toLowerCase, !trim_idem.
  - apply full_newDomain.
Qed.

(** X2. Inputs that differ only in letter case and in white space around
    them build the same candidate. *)
Theorem newDomain_ignores_case_and_padding :
  forall a a' b b' l1 r1 l2 r2,
    toLowerCase a = toLowerCase a' ->
    toLowerCase b = toLowerCase b' ->
    allWhiteSpace l1 = true -> allWhiteSpace r1 = true ->
    allWhiteSpace l2 = true -> allWhiteSpace r2 = true ->
    newDomain (l1 ++ a ++ r1) (l2 ++ b ++ r2) = newDomain a' b'.
Proof.
  intros a a' b b' l1 r1 l2 r2 Ha Hb Hl1 Hr1 Hl2 Hr2.
  unfold newDomain. rewrite !trim_pad by assumption.
  now rewrite <- !trim_toLowerCase, Ha, Hb.
Qed.

Lemma newDomain_ignores_case_and_padding_witness :
  newDomain ("  " ++ "Example" ++ " ") ("" ++ "COM" ++ "  ") = newDomain "example" "Com".
Proof.
  apply newDomain_ignores_case_and_padding; reflexivity.
Defined.

(** X3. For every [Domain] value, also one not made by the constructor,
    [full] is trimmed and in lower case: trimming or lower-casing it again
    changes nothing. *)
Theorem full_is_normalised : forall d,
  trim (full d) = full d /\ toLowerCase (full d) = full d.
Proof.
  intro d. unfold full. split.
  - apply trim_idem.
  - rewrite <- trim_toLowerCase, !toLowerCase_append, !toLowerCase_idem. reflexivity.
Qed.

(** ** What [validateTld] lets through *)

Section Validation.

Lemma length_trimStart_le : forall s, String.length (trimStart s) <= String.length s.
Proof.
  induction s as [|c r IH]; simpl; [lia|].
  destruct (isWhiteSpace c); simpl; lia.
Qed.

Lemma length_trimEnd_le : forall s, String.length (trimEnd s) <= String.length s.
Proof.
  induction s as [|c r IH]; simpl; [lia|].
  destruct (isWhiteSpace c && isEmpty (trimEnd r)); simpl; lia.
Qed.

Lemma length_trim_le : forall s, String.length (trim s) <= String.length s.
Proof.
  intro s. unfold trim.
  pose proof (length_trimEnd_le (trimStart s)). pose proof (length_trimStart_le s). lia.
Qed.

Lemma lengthGreater_mono_len : forall n n' maxLength,
  n <= n' -> lengthGreater n maxLength = true -> lengthGreater n' maxLength = true.
Proof.
  intros n n' m Hle H. apply lengthGreater_exceeds in H. apply lengthGreater_exceeds.
  destruct m as [| | |q]; simpl in *; try assumption.
  eapply Qlt_le_trans; [exact H|].
  unfold Qle; simpl. lia.
Qed.

Lemma lengthGreater_mono_bound : forall n q q',
  (q <= q')%Q -> lengthGreater n (Finite q') = true -> lengthGreater n (Finite q) = true.
Proof.
  intros n q q' Hle H. apply lengthGreater_exceeds in H. apply lengthGreater_exceeds.
  simpl in *. eapply Qle_lt_trans; eassumption.
Qed.

Lemma hyphen_lowerChar : forall c, Ascii.eqb "-" (lowerChar c) = Ascii.eqb "-" c.
Proof. destruct c as [[] [] [] [] [] [] [] []]; reflexivity. Qed.

Lemma includes_toLowerCase : forall s, includes (toLowerCase s) "-" = includes s "-".
Proof.
  induction s as [|c r IH]; [reflexivity|].
  cbn [toLowerCase]. now rewrite !includes_cons_hyphen, hyphen_lowerChar, IH.
Qed.

Lemma includes_trimStart : forall s,
  includes s "-" = false -> includes (trimStart s) "-" = false.
Proof.
  induction s as [|c r IH]; [trivial|].
  cbn [trimStart]. destruct (isWhiteSpace c); [|trivial].
  rewrite includes_cons_hyphen. intro H. apply orb_false_iff in H as [_ H]. now apply IH.
Qed.

Lemma includes_trimEnd : forall s,
  includes s "-" = false -> includes (trimEnd s) "-" = false.
Proof.
  induction s as [|c r IH]; [trivial|].
  cbn [trimEnd]. rewrite includes_cons_hyphen. intro H.
  apply orb_false_iff in H as [Hc Hr].
  destruct (isWhiteSpace c && isEmpty (trimEnd r)); [reflexivity|].
  now rewrite includes_cons_hyphen, Hc, (IH Hr).
Qed.

Lemma trimEnd_empty : forall s, trimEnd s = "" -> allWhiteSpace s = true.
Proof.
  induction s as [|c r IH]; [reflexivity|].
  cbn [trimEnd allWhiteSpace]. destruct (isWhiteSpace c); simpl; [|discriminate].
  destruct (trimEnd r); simpl; [intros _; now apply IH | discriminate].
Qed.

Lemma allWhiteSpace_trimStart : forall s,
  allWhiteSpace (trimStart s) = true -> allWhiteSpace s = true.
Proof.
  induction s as [|c r IH]; [reflexivity|].
  cbn [trimStart]. destruct (isWhiteSpace c) eqn:E.
  - intro H. cbn [allWhiteSpace]. now rewrite E, (IH H).
  - cbn [allWhiteSpace]. now rewrite E.
Qed.

Lemma trim_empty : forall s, trim s = "" <-> allWhiteSpace s = true.
Proof.
  intro s. split; [|apply trim_allWhiteSpace].
  intro H. now apply allWhiteSpace_trimStart, trimEnd_empty.
Qed.

Lemma validateTld_true : forall t maxLength,
  validateTld t maxLength = true <->
  t <> "" /\ lengthGreater (String.length (trim t)) maxLength = false
  /\ includes t "-" = false.
Proof.
  intros t m. unfold validateTld, truthy.
  destruct t as [|c r]; simpl isEmpty; simpl negb.
  - split; [discriminate | intros [H _]; now contradiction H].
  - destruct (lengthGreater _ m); [split; [discriminate | intros (_ & H & _); discriminate]|].
    destruct (includes (String c r) "-"); split; try discriminate; auto.
    + intros (_ & _ & H). discriminate.
    + intros _. repeat split. discriminate.
Qed.

End Validation.

(** X4. Raising the bound never rejects a TLD that was accepted: what passes
    under [max] passes under every larger bound and with no bound at all. *)
Theorem validateTld_monotone : forall t q q',
  (q <= q')%Q ->
  validateTld t (Finite q) = true ->
  validateTld t (Finite q') = true
  /\ validateTld t PosInfinity = true
  /\ validateTld t (toNumber None) = true.
Proof.
  intros t q q' Hle H. apply validateTld_true in H as (Hne & Hlen & Hinc).
  repeat split; apply validateTld_true; repeat split; try assumption.
  destruct (lengthGreater (String.length (trim t)) (Finite q')) eqn:E; [|reflexivity].
  apply (lengthGreater_mono_bound _ q q' Hle) in E. congruence.
Qed.

Lemma validateTld_monotone_witness :
  validateTld "com" (Finite 5) = true
  /\ validateTld "com" PosInfinity = true
  /\ validateTld "com" (toNumber None) = true.
Proof.
  apply (validateTld_monotone "com" 3 5); [discriminate | reflexivity].
Defined.

(** X5. Every TLD that passes validation is non-empty and gives a candidate
    whose stored TLD holds no hyphen. *)
Theorem valid_tld_has_no_hyphen : forall s t maxLength,
  validateTld t maxLength = true ->
  t <> "" /\ includes (tld (newDomain s t)) "-" = false.
Proof.
  intros s t m H. apply validateTld_true in H as (Hne & _ & Hinc).
  split; [exact Hne|]. simpl tld.
  rewrite includes_toLowerCase. unfold trim.
  now apply includes_trimEnd, includes_trimStart.
Qed.

Lemma valid_tld_has_no_hyphen_witness :
  " Com " <> "" /\ includes (tld (newDomain "example" " Com ")) "-" = false.
Proof.
  apply (valid_tld_has_no_hyphen "example" " Com " (Finite 3)). reflexivity.
Defined.

(** X6. The smallest bounds: below zero every line is rejected; at zero the
    lines kept are exactly the non-empty lines of white space. *)
Theorem validateTld_small_bounds :
  (forall t q, (q < 0)%Q -> validateTld t (Finite q) = false)
  /\ (forall t, validateTld t NegInfinity = false)
  /\ (forall t, validateTld t (Finite 0) = true <-> t <> "" /\ allWhiteSpace t = true).
Proof.
  split; [|split].
  - intros t q Hq.
    destruct (validateTld t (Finite q)) eqn:E; [|reflexivity].
    apply validateTld_true in E as (_ & Hlen & _).
    assert (Hgt : lengthGreater (String.length (trim t)) (Finite q) = true).
    { apply lengthGreater_exceeds. simpl. eapply Qlt_le_trans; [exact Hq|].
      unfold Qle; simpl. lia. }
    congruence.
  - intro t. unfold validateTld. now destruct (truthy t).
  - intro t. rewrite validateTld_true. split.
    + intros (Hne & Hlen & _). split; [exact Hne|]. apply trim_empty.
      destruct (trim t) as [|c r]; [reflexivity|]. discriminate Hlen.
    + intros [Hne Hws]. repeat split; [exact Hne | | now apply includes_allWhiteSpace].
      now rewrite (trim_allWhiteSpace t Hws).
Qed.

Lemma validateTld_small_bounds_witness :
  validateTld "com" (Finite (-1 # 2)) = false.
Proof.
  destruct validateTld_small_bounds as (H & _). apply H. reflexivity.
Defined.

(** ** [split] and the line breaks of the list *)

Section SplitAgain.

Lemma splitFrom_piece : forall p cur s,
  noLineBreak p = true ->
  splitFrom false cur (p ++ s) = splitFrom false (cur ++ p) s.
Proof.
  induction p as [|c r IH]; intros cur s Hp.
  - now rewrite append_empty_r.
  - cbn [noLineBreak] in Hp. apply andb_true_iff in Hp as [Hc Hr].
    apply negb_true_iff in Hc.
    cbn [append splitFrom]. rewrite Hc, (IH _ _ Hr), append_assoc. reflexivity.
Qed.

Lemma splitFrom_true_text : forall s cur,
  startsWithText s -> splitFrom true cur s = splitFrom false cur s.
Proof. intros [|c r] cur H; simpl in *; [reflexivity | now rewrite H]. Qed.

Lemma splitFrom_true_breaks : forall l s,
  allLineBreaks l = true -> splitFrom true "" (l ++ s) = splitFrom true "" s.
Proof.
  induction l as [|c r IH]; intros s H; [reflexivity|].
  cbn [allLineBreaks] in H. apply andb_true_iff in H as [Hc Hr].
  cbn [append splitFrom]. rewrite Hc. now apply IH.
Qed.

Lemma splitFrom_separator : forall sp cur s,
  isSeparator sp = true ->
  splitFrom false cur (sp ++ s) = cur :: splitFrom true "" s.
Proof.
  intros [|c r] cur s H; [discriminate|].
  unfold isSeparator in H. cbn [isEmpty negb andb allLineBreaks] in H.
  apply andb_true_iff in H as [Hc Hr].
  cbn [append splitFrom]. rewrite Hc. now rewrite splitFrom_true_breaks.
Qed.

Lemma noLineBreak_startsWithText : forall p s,
  noLineBreak p = true -> (p = "" -> startsWithText s) -> startsWithText (p ++ s).
Proof.
  intros [|c r] s Hp Hs; [now apply Hs|].
  cbn [noLineBreak] in Hp. apply andb_true_iff in Hp as [Hc _].
  now apply negb_true_iff in Hc.
Qed.

Lemma splitFrom_interleave : forall ps p seps cur,
  noLineBreak p = true ->
  Forall (fun q => noLineBreak q = true) ps ->
  Forall (fun sp => isSeparator sp = true) seps ->
  List.length seps = List.length ps ->
  innerNonEmpty ps ->
  splitFrom false cur (interleave (p :: ps) seps) = (cur ++ p) :: ps.
Proof.
  induction ps as [|q qs IH]; intros p seps cur Hp Hps Hseps Hlen Hinner.
  - destruct seps; [|discriminate]. cbn [interleave].
    rewrite <- (append_empty_r p) at 1. rewrite (splitFrom_piece p cur "" Hp).
    reflexivity.
  - destruct seps as [|sp ss]; [discriminate|].
    inversion Hps as [|? ? Hq Hqs]; subst. inversion Hseps as [|? ? Hsp Hss]; subst.
    change (interleave (p :: q :: qs) (sp :: ss))
      with (p ++ sp ++ interleave (q :: qs) ss).
    rewrite (splitFrom_piece p cur _ Hp), (splitFrom_separator sp _ _ Hsp).
    f_equal.
    assert (Hstart : startsWithText (interleave (q :: qs) ss)).
    { destruct qs as [|q' qs'].
      - destruct ss; [|discriminate]. cbn [interleave].
        rewrite <- (append_empty_r q). apply noLineBreak_startsWithText; [exact Hq|].
        intros _. exact I.
      - destruct ss as [|sp' ss']; [discriminate|].
        change (interleave (q :: q' :: qs') (sp' :: ss'))
          with (q ++ sp' ++ interleave (q' :: qs') ss').
        apply noLineBreak_startsWithText; [exact Hq|].
        intro Hempty. destruct Hinner as [Hne _]. contradiction. }
    rewrite (splitFrom_true_text _ _ Hstart).
    rewrite (IH q ss "" Hq Hqs Hss); [reflexivity | simpl in Hlen; lia |].
    destruct qs; [exact I | now destruct Hinner].
Qed.

Lemma splitFrom_true_all_breaks : forall l,
  allLineBreaks l = true -> splitFrom true "" l = [""].
Proof.
  intros l H. rewrite <- (append_empty_r l). now rewrite splitFrom_true_breaks.
Qed.

(** Line breaks at the end of the text add at most one empty piece. *)
Lemma splitFrom_trailing : forall sep,
  allLineBreaks sep = true ->
  forall txt,
    (forall cur, exists extra,
        (extra = [] \/ extra = [""])
        /\ splitFrom false cur (txt ++ sep) = (splitFrom false cur txt ++ extra)%list)
    /\ (exists extra,
        (extra = [] \/ extra = [""])
        /\ splitFrom true "" (txt ++ sep) = (splitFrom true "" txt ++ extra)%list).
Proof.
  intros sep Hsep. induction txt as [|c r [IHf IHt]].
  - split.
    + intro cur. cbn [append]. destruct sep as [|b bs].
      * exists []. split; [now left | reflexivity].
      * exists [""]. split; [now right|].
        cbn [allLineBreaks] in Hsep. apply andb_true_iff in Hsep as [Hb Hbs].
        cbn [splitFrom]. rewrite Hb. now rewrite splitFrom_true_all_breaks.
    + exists []. split; [now left|]. cbn [append].
      now rewrite splitFrom_true_all_breaks.
  - cbn [append splitFrom]. destruct (isLineBreak c).
    + destruct IHt as (extra & Hextra & Heq). split.
      * intro cur. exists extra. split; [exact Hextra|]. now rewrite Heq.
      * exists extra. split; [exact Hextra | exact Heq].
    + split; [intro cur; apply IHf | apply IHf].
Qed.

End SplitAgain.

(** X8. [split] undoes joining: pieces without line break, of which only the
    first and the last may be empty, joined by any non-empty runs of carriage
    returns and line feeds, are found again by [split].  The pieces do not
    depend on which line breaks, or how many, separate them. *)
Theorem split_of_joined_pieces : forall pieces seps,
  S (List.length seps) = List.length pieces ->
  Forall (fun p => noLineBreak p = true) pieces ->
  Forall (fun sp => isSeparator sp = true) seps ->
  innerNonEmpty (tl pieces) ->
  split (interleave pieces seps) = pieces.
Proof.
  intros [|p ps] seps Hlen Hno Hseps Hinner; [discriminate|].
  inversion Hno as [|? ? Hp Hps]; subst.
  unfold split. rewrite (splitFrom_interleave ps p seps ""); auto.
Qed.

Lemma split_of_joined_pieces_witness :
  split (interleave ["# tlds"; "com"; "net"; ""]
                    [String CR (String LF ""); String LF (String LF ""); String CR ""])
  = ["# tlds"; "com"; "net"; ""].
Proof.
  apply split_of_joined_pieces.
  - reflexivity.
  - repeat constructor.
  - repeat constructor.
  - simpl. repeat split; discriminate.
Defined.

(** X9. Line breaks at the end of the list change neither the header nor the
    TLDs kept: the empty piece they leave is dropped by [validateTld]. *)
Theorem trailing_breaks_add_no_candidate : forall text sep maxLength,
  allLineBreaks sep = true ->
  hd_error (split (text ++ sep)) = hd_error (split text)
  /\ validTlds maxLength (tl (split (text ++ sep)))
     = validTlds maxLength (tl (split text)).
Proof.
  intros text sep m Hsep.
  destruct (splitFrom_trailing sep Hsep text) as [Hf _].
  destruct (Hf "") as (extra & Hextra & Heq).
  fold (split (text ++ sep)) in Heq. fold (split text) in Heq. rewrite Heq.
  destruct (split text) as [|h rest] eqn:E; [now apply splitFrom_not_nil in E|].
  split; [reflexivity|]. cbn [app tl]. unfold validTlds. rewrite filter_app.
  destruct Hextra as [-> | ->]; simpl; now rewrite app_nil_r.
Qed.

Lemma trailing_breaks_add_no_candidate_witness :
  hd_error (split (scenarioText ++ String CR (String LF ""))) = hd_error (split scenarioText)
  /\ validTlds (Finite 3) (tl (split (scenarioText ++ String CR (String LF ""))))
     = validTlds (Finite 3) (tl (split scenarioText)).
Proof.
  apply trailing_breaks_add_no_candidate. reflexivity.
Defined.

(** X10. A list that begins with a line break has the empty header, and its
    first line of text is no longer taken off: it is handed to the loop with
    the other lines. *)
Theorem leading_break_keeps_first_line : forall sep text,
  isSeparator sep = true ->
  startsWithText text ->
  split (sep ++ text) = "" :: split text
  /\ shiftHeader (split (sep ++ text))
     = ([ConsoleLog (Chalk magenta (Plain ""))], split text).
Proof.
  intros sep text Hsep Htext.
  assert (H : split (sep ++ text) = "" :: split text).
  { unfold split. rewrite (splitFrom_separator sep "" text Hsep).
    now rewrite (splitFrom_true_text _ _ Htext). }
  split; [exact H | now rewrite H].
Qed.

Lemma leading_break_keeps_first_line_witness :
  split (newLine ++ "com") = [""; "com"]
  /\ shiftHeader (split (newLine ++ "com"))
     = ([ConsoleLog (Chalk magenta (Plain ""))], ["com"]).
Proof.
  apply (leading_break_keeps_first_line newLine "com"); reflexivity.
Defined.

(** ** The checked print path *)

Section CheckedPrint.

Lemma results_app : forall a b, results (a ++ b) = (results a ++ results b)%list.
Proof.
  induction a as [|[t|f d fl] r IH]; intros b; simpl; [reflexivity| |apply IH].
  destruct (resultOf t); simpl; now rewrite IH.
Qed.

Lemma results_announce : forall env listFile announce p,
  loadSource env listFile = (announce, p) -> results [announce] = [].
Proof.
  intros env listFile announce p H. unfold loadSource in H.
  destruct listFile as [f|]; [destruct (truthy f)|]; inversion H; reflexivity.
Qed.

Lemma results_verdictLines : forall disablePrefix ignoreUnavailable v,
  results (verdictLines disablePrefix ignoreUnavailable v)
  = if shownVerdict ignoreUnavailable v then [verdictResult v] else [].
Proof.
  intros dp ign [d b]. unfold verdictLines, resume, shownVerdict, verdictResult.
  cbn [fst snd onFulfilled candidate].
  destruct b; simpl; [now rewrite resultOf_resultLine|].
  destruct ign; simpl; [reflexivity | now rewrite resultOf_resultLine].
Qed.

Lemma replay_print : forall disablePrefix ignoreUnavailable settled,
  Forall (fun c => onFulfilled c = PrintThen disablePrefix ignoreUnavailable)
         (map fst settled) ->
  replay settled
  = flat_map (verdictLines disablePrefix ignoreUnavailable) (verdictsOf settled).
Proof.
  intros dp ign. induction settled as [|[c b] r IH]; intro Hall; [reflexivity|].
  cbn [map fst] in Hall. inversion Hall as [|? ? Hc Hr]; subst.
  unfold replay, verdictsOf in *. cbn [flat_map map fst snd]. rewrite (IH Hr).
  f_equal. unfold verdictLines, resume. cbn [fst snd onFulfilled candidate].
  now rewrite Hc.
Qed.

(** The history of a run of the print action with availability check: only
    checks of that action settle. *)
Lemma print_run_history :
  forall env sld options announce rawTlds w,
    p_test options || p_ignoreUnavailable options = true ->
    loadSource env (p_list options) = (announce, Fulfilled rawTlds) ->
    steps (printAction env sld options) w ->
    exists header settled,
      trace w = ([announce; ConsoleLog (Chalk magenta (Plain header)); checkingAll sld]
                 ++ replay settled)%list
      /\ verdicts w = verdictsOf settled
      /\ Forall (fun c => onFulfilled c
                          = PrintThen (p_disablePrefix options) (p_ignoreUnavailable options))
                (map fst settled)
      /\ Permutation (inflight w ++ map fst settled)
           (map (fun t => mkCheck (newDomain sld t)
                            (PrintThen (p_disablePrefix options)
                               (p_ignoreUnavailable options)))
                (validTlds (toNumber (p_max options)) (tl (split rawTlds)))).
Proof.
  intros env s options announce rawTlds w Ht Hload Hsteps.
  destruct (action_fulfilled env s (p_list options)
              (printBody s (p_test options || p_ignoreUnavailable options)
                 (p_ignoreUnavailable options) (p_disablePrefix options)
                 (toNumber (p_max options)))
              announce rawTlds Hload) as (header & _ & Hw0).
  fold (printAction env s options) in Hw0.
  rewrite forOf_printBody, Ht in Hw0. cbn [fst snd] in Hw0.
  destruct (steps_history _ _ Hsteps) as (settled & Htr & Hv & Hperm & _).
  rewrite Hw0 in Htr, Hv, Hperm. cbn [trace verdicts inflight] in Htr, Hv, Hperm.
  exists header, settled. repeat split; try assumption.
  apply Forall_forall. intros c Hc.
  assert (Hin : In c (inflight w ++ map fst settled)%list)
    by (apply in_or_app; now right).
  apply (Permutation_in _ Hperm) in Hin.
  apply in_map_iff in Hin as (t & <- & _). reflexivity.
Qed.

Lemma results_intro : forall env listFile announce p header sld,
  loadSource env listFile = (announce, p) ->
  results [announce; ConsoleLog (Chalk magenta (Plain header)); checkingAll sld] = [].
Proof.
  intros env listFile announce p header s Hload.
  change (results ([announce] ++ [ConsoleLog (Chalk magenta (Plain header));
                                  checkingAll s]) = []).
  now rewrite results_app, (results_announce _ _ _ _ Hload).
Qed.

Lemma results_flat_verdictLines : forall disablePrefix ignoreUnavailable vs,
  results (flat_map (verdictLines disablePrefix ignoreUnavailable) vs)
  = map verdictResult (filter (shownVerdict ignoreUnavailable) vs).
Proof.
  intros dp ign. induction vs as [|v r IH]; [reflexivity|].
  cbn [flat_map filter]. rewrite results_app, results_verdictLines, IH.
  now destruct (shownVerdict ign v).
Qed.

End CheckedPrint.

(** X11. In print mode with availability check, at every moment of a run the
    console holds, after the three introductory lines, exactly the lines of
    the verdicts reached so far, in the order the checks settled: a green
    line for a free domain, a red one for a domain in use unless
    [--ignore-unavailable] hides it.  Without that flag there is one result
    line per settled check, and every candidate of the list is either still
    being checked or has its verdict. *)
Theorem checked_print_shows_verdicts :
  forall env sld options announce rawTlds w,
    p_test options || p_ignoreUnavailable options = true ->
    loadSource env (p_list options) = (announce, Fulfilled rawTlds) ->
    steps (printAction env sld options) w ->
    (exists header,
        trace w = ([announce; ConsoleLog (Chalk magenta (Plain header)); checkingAll sld]
                   ++ flat_map (verdictLines (p_disablePrefix options)
                                  (p_ignoreUnavailable options))
                        (verdicts w))%list)
    /\ results (trace w)
       = map verdictResult
           (filter (shownVerdict (p_ignoreUnavailable options)) (verdicts w))
    /\ (p_ignoreUnavailable options = false ->
        List.length (results (trace w)) = List.length (verdicts w))
    /\ Permutation (map candidate (inflight w) ++ map fst (verdicts w))
         (candidates sld (toNumber (p_max options)) (tl (split rawTlds))).
Proof.
  intros env s options announce rawTlds w Ht Hload Hsteps.
  destruct (print_run_history env s options announce rawTlds w Ht Hload Hsteps)
    as (header & settled & Htr & Hv & Hall & Hperm).
  rewrite (replay_print _ _ settled Hall), <- Hv in Htr.
  assert (Hres : results (trace w)
                 = map verdictResult
                     (filter (shownVerdict (p_ignoreUnavailable options)) (verdicts w))).
  { rewrite Htr, results_app, (results_intro _ _ _ _ _ _ Hload).
    apply results_flat_verdictLines. }
  split; [now exists header|]. split; [exact Hres|]. split.
  - intro Hi. rewrite Hres, length_map. f_equal.
    apply forallb_filter_id. apply forallb_forall. intros v _.
    unfold shownVerdict. rewrite Hi. apply orb_true_r.
  - rewrite Hv. unfold verdictsOf. rewrite map_map. cbn [fst].
    rewrite <- (map_map fst candidate), <- map_app.
    unfold candidates.
    rewrite <- (map_map (fun t => mkCheck (newDomain s t)
                                   (PrintThen (p_disablePrefix options)
                                      (p_ignoreUnavailable options))) candidate).
    apply Permutation_map, Hperm.
Qed.

Lemma checked_print_shows_verdicts_witness :
  exists w',
    runSchedule [(nxdomain, 1); (resolves, 0)]
      (printAction scenarioEnv "example"
         (mkPrintOptions true false (Some (Finite 3)) (Some "tlds.txt") true))
    = Some w'
    /\ results (trace w') = [(green, "example.net"); (red, "example.com")].
Proof.
  destruct (runSchedule [(nxdomain, 1); (resolves, 0)]
              (printAction scenarioEnv "example"
                 (mkPrintOptions true false (Some (Finite 3)) (Some "tlds.txt") true)))
    as [w'|] eqn:E; [|vm_compute in E; discriminate E].
  exists w'. split; [reflexivity|].
  destruct (checked_print_shows_verdicts scenarioEnv "example"
              (mkPrintOptions true false (Some (Finite 3)) (Some "tlds.txt") true)
              (gettingFromFile "tlds.txt") scenarioText w'
              eq_refl eq_refl (runSchedule_steps _ _ _ E)) as (_ & H & _).
  rewrite H. vm_compute in E. inversion E. reflexivity.
Defined.

(** ** The order in which checks settle *)

Section Order.

Lemma replay_cons : forall c b settled,
  replay ((c, b) :: settled) = (resume c b ++ replay settled)%list.
Proof. reflexivity. Qed.

(** A schedule whose lookups all go to one resolver: the checks it settles
    get the verdict of that resolver. *)
Lemma runSchedule_one_resolver : forall lookup schedule w w',
  Forall (fun li => fst li = lookup) schedule ->
  runSchedule schedule w = Some w' ->
  exists cs,
    trace w' = (trace w ++ replay (map (judged lookup) cs))%list
    /\ verdicts w' = (verdicts w ++ verdictsOf (map (judged lookup) cs))%list
    /\ Permutation (inflight w' ++ cs) (inflight w)
    /\ List.length cs = List.length schedule.
Proof.
  intros lookup. induction schedule as [|[l i] rest IH]; intros w w' Hall Hrun.
  - inversion Hrun; subst. exists []. simpl. rewrite !app_nil_r. auto.
  - inversion Hall as [|? ? Hl Hrest]; subst. simpl in Hrun. cbn [fst] in IH.
    destruct (settle l i w) as [w1|] eqn:E; [|discriminate].
    apply settle_inv in E as (c & Hnth & Htr & Hin & _ & Hv).
    destruct (IH w1 w' Hrest Hrun) as (cs & Htr' & Hv' & Hperm & Hlen).
    exists (c :: cs). cbn [map]. unfold judged at 1 3.
    rewrite replay_cons. unfold verdictsOf. cbn [map fst snd]. repeat split.
    + now rewrite Htr', Htr, <- app_assoc.
    + rewrite Hv', Hv, <- app_assoc. reflexivity.
    + rewrite <- (removeAt_perm _ _ _ _ Hnth), <- Hin, <- Hperm.
      apply Permutation_sym, Permutation_middle.
    + simpl. now rewrite Hlen.
Qed.

End Order.

(** X12. The order in which the checks settle decides only the order of the
    output: two runs from the same state that settle every check against the
    same resolver, in whatever order, write the same lines up to their order
    and reach the same verdicts. *)
Theorem settling_order_permutes_output :
  forall lookup schedule1 schedule2 w w1 w2,
    Forall (fun li => fst li = lookup) schedule1 ->
    Forall (fun li => fst li = lookup) schedule2 ->
    runSchedule schedule1 w = Some w1 ->
    runSchedule schedule2 w = Some w2 ->
    inflight w1 = [] ->
    inflight w2 = [] ->
    Permutation (trace w1) (trace w2)
    /\ Permutation (verdicts w1) (verdicts w2)
    /\ Permutation (emitted (trace w1)) (emitted (trace w2)).
Proof.
  intros lookup s1 s2 w w1 w2 H1 H2 R1 R2 Q1 Q2.
  destruct (runSchedule_one_resolver lookup s1 w w1 H1 R1) as (cs1 & T1 & V1 & P1 & _).
  destruct (runSchedule_one_resolver lookup s2 w w2 H2 R2) as (cs2 & T2 & V2 & P2 & _).
  rewrite Q1 in P1. rewrite Q2 in P2. simpl in P1, P2.
  assert (P : Permutation cs1 cs2) by (now rewrite P1, P2).
  assert (PT : Permutation (replay (map (judged lookup) cs1))
                           (replay (map (judged lookup) cs2))).
  { unfold replay. apply Permutation_flat_map, Permutation_map, P. }
  repeat split.
  - rewrite T1, T2. now apply Permutation_app_head.
  - rewrite V1, V2. apply Permutation_app_head.
    unfold verdictsOf. now apply Permutation_map, Permutation_map.
  - rewrite T1, T2, !emitted_app. apply Permutation_app_head.
    clear - P. induction P as [|c l l' _ IH|c c' l|l l' l'' _ IH1 _ IH2].
    + constructor.
    + cbn [map]. unfold judged at 1 3. rewrite !replay_cons, !emitted_app.
      now apply Permutation_app_head.
    + cbn [map]. unfold judged at 1 2 4 5. rewrite !replay_cons, !emitted_app.
      rewrite !app_assoc. apply Permutation_app_tail, Permutation_app_comm.
    + now transitivity (emitted (replay (map (judged lookup) l'))).
Qed.

Lemma settling_order_permutes_output_witness :
  exists w1 w2,
    runSchedule [(nxdomain, 0); (nxdomain, 0)]
      (fileAction scenarioEnv "example" "out.txt"
         (mkFileOptions true (Some (Finite 3)) (Some "tlds.txt"))) = Some w1
    /\ runSchedule [(nxdomain, 1); (nxdomain, 0)]
         (fileAction scenarioEnv "example" "out.txt"
            (mkFileOptions true (Some (Finite 3)) (Some "tlds.txt"))) = Some w2
    /\ Permutation (emitted (trace w1)) (emitted (trace w2)).
Proof.
  destruct (runSchedule [(nxdomain, 0); (nxdomain, 0)]
              (fileAction scenarioEnv "example" "out.txt"
                 (mkFileOptions true (Some (Finite 3)) (Some "tlds.txt"))))
    as [w1|] eqn:E1; [|vm_compute in E1; discriminate E1].
  destruct (runSchedule [(nxdomain, 1); (nxdomain, 0)]
              (fileAction scenarioEnv "example" "out.txt"
                 (mkFileOptions true (Some (Finite 3)) (Some "tlds.txt"))))
    as [w2|] eqn:E2; [|vm_compute in E2; discriminate E2].
  exists w1, w2. split; [reflexivity|]. split; [reflexivity|].
  assert (Q1 : inflight w1 = []) by (vm_compute in E1; now inversion E1).
  assert (Q2 : inflight w2 = []) by (vm_compute in E2; now inversion E2).
  assert (F1 : Forall (fun li : Resolver * nat => fst li = nxdomain)
                 [(nxdomain, 0); (nxdomain, 0)]) by (repeat constructor).
  assert (F2 : Forall (fun li : Resolver * nat => fst li = nxdomain)
                 [(nxdomain, 1); (nxdomain, 0)]) by (repeat constructor).
  destruct (settling_order_permutes_output nxdomain _ _ _ w1 w2 F1 F2 E1 E2 Q1 Q2)
    as (_ & _ & H).
  exact H.
Defined.

(** ** File mode without [--ignore-unavailable] *)

Section PlainFile.

Lemma writesTo_file_lines : forall sld fileName kept,
  writesTo fileName
    (map (fun t => WriteFile fileName (full (newDomain sld t) ++ newLine) flag_a) kept)
  = map (fun t => (lineOf (newDomain sld t), flag_a)) kept.
Proof.
  intros s f. induction kept as [|t r IH]; [reflexivity|].
  cbn [map writesTo]. now rewrite String.eqb_refl, IH.
Qed.

Lemma results_file_lines : forall sld fileName kept,
  results (map (fun t => WriteFile fileName (full (newDomain sld t) ++ newLine) flag_a)
               kept) = [].
Proof. intros s f. induction kept as [|t r IH]; [reflexivity | exact IH]. Qed.

Lemma fileAction_plain : forall env sld fileName options announce rawTlds,
  f_ignoreUnavailable options = false ->
  loadSource env (f_list options) = (announce, Fulfilled rawTlds) ->
  exists header,
    fileAction env sld fileName options =
    {| trace := ([announce; ConsoleLog (Chalk magenta (Plain header)); checkingAll sld]
                 ++ map (fun t => WriteFile fileName
                                    (full (newDomain sld t) ++ newLine) flag_a)
                      (validTlds (toNumber (f_max options)) (tl (split rawTlds))))%list;
       inflight := [];
       unhandled := None;
       verdicts := [] |}.
Proof.
  intros env s fileName options announce rawTlds Hi Hload.
  destruct (action_fulfilled env s (f_list options)
              (fileBody s fileName (f_ignoreUnavailable options)
                 (toNumber (f_max options)))
              announce rawTlds Hload) as (header & _ & Hw0).
  fold (fileAction env s fileName options) in Hw0.
  rewrite forOf_fileBody, Hi in Hw0. exists header. exact Hw0.
Qed.

Lemma run_in_launch_order : forall lookup cs w,
  inflight w = cs ->
  runSchedule (inLaunchOrder lookup (List.length cs)) w =
  Some {| trace := (trace w ++ replay (map (judged lookup) cs))%list;
          inflight := [];
          unhandled := unhandled w;
          verdicts := (verdicts w ++ verdictsOf (map (judged lookup) cs))%list |}.
Proof.
  intros lookup. induction cs as [|c cs IH]; intros w Hw.
  - simpl. rewrite !app_nil_r. destruct w; simpl in *. now subst.
  - cbn [List.length inLaunchOrder repeat runSchedule].
    rewrite (settle_total lookup 0 w c) by now rewrite Hw.
    fold (inLaunchOrder lookup (List.length cs)).
    rewrite IH by (cbn [inflight]; now rewrite Hw).
    cbn [trace unhandled verdicts].
    change (replay (map (judged lookup) (c :: cs)))
      with (resume c (isDomainAvailable lookup (candidate c))
            ++ replay (map (judged lookup) cs))%list.
    change (verdictsOf (map (judged lookup) (c :: cs)))
      with ((candidate c, isDomainAvailable lookup (candidate c))
            :: verdictsOf (map (judged lookup) cs)).
    now rewrite <- !app_assoc.
Qed.

Lemma replay_all_available_file : forall sld fileName lookup kept,
  alwaysFails lookup ->
  replay (map (judged lookup)
              (map (fun t => mkCheck (newDomain sld t) (FileThen fileName)) kept))
  = map (fun t => WriteFile fileName (full (newDomain sld t) ++ newLine) flag_a) kept.
Proof.
  intros s f lookup kept Hfail. induction kept as [|t r IH]; [reflexivity|].
  cbn [map]. unfold judged at 1. rewrite replay_cons, IH.
  now rewrite (isDomainAvailable_fails _ _ Hfail).
Qed.

End PlainFile.

(** X14. In file mode without [--ignore-unavailable] no check is made: the
    loop itself requests the append of the line of every TLD that passes
    validation, in the order of the list, nothing is left to happen later and
    no result line goes to the console. *)
Theorem plain_file_in_source_order :
  forall env sld fileName options announce rawTlds,
    f_ignoreUnavailable options = false ->
    loadSource env (f_list options) = (announce, Fulfilled rawTlds) ->
    let w := fileAction env sld fileName options in
    let made := candidates sld (toNumber (f_max options)) (tl (split rawTlds)) in
    writesTo fileName (trace w) = map (fun d => (lineOf d, flag_a)) made
    /\ (forall other, other <> fileName -> writesTo other (trace w) = [])
    /\ emitted (trace w) = map full made
    /\ results (trace w) = []
    /\ inflight w = []
    /\ verdicts w = []
    /\ (forall w', steps w w' -> w' = w).
Proof.
  intros env s fileName options announce rawTlds Hi Hload w made.
  destruct (fileAction_plain env s fileName options announce rawTlds Hi Hload)
    as (header & Hw).
  fold w in Hw.
  split; [|split; [|split; [|split; [|split; [|split]]]]].
  - rewrite Hw. cbn [trace].
    rewrite writesTo_app, (writesTo_intro _ _ _ _ _ _ _ Hload), writesTo_file_lines.
    unfold made, candidates. now rewrite map_map.
  - intros other Hne. rewrite Hw. cbn [trace].
    rewrite writesTo_app, (writesTo_intro _ _ _ _ _ _ _ Hload). cbn [app].
    apply not_eq_sym, String.eqb_neq in Hne.
    clear - Hne.
    generalize (validTlds (toNumber (f_max options)) (tl (split rawTlds))).
    intro kept. induction kept as [|t r IH]; [reflexivity|].
    cbn [map writesTo]. rewrite Hne. exact IH.
  - rewrite Hw. cbn [trace].
    change [announce; ConsoleLog (Chalk magenta (Plain header)); checkingAll s]
      with ([announce] ++ [ConsoleLog (Chalk magenta (Plain header)); checkingAll s])%list.
    rewrite !emitted_app, (emitted_announce _ _ _ _ Hload), emitted_file_lines.
    unfold made, candidates. now rewrite map_map.
  - rewrite Hw. cbn [trace].
    now rewrite results_app, (results_intro _ _ _ _ _ _ Hload), results_file_lines.
  - now rewrite Hw.
  - now rewrite Hw.
  - intros w' Hs. apply steps_quiescent; [now rewrite Hw | exact Hs].
Qed.

Lemma plain_file_in_source_order_witness :
  writesTo "out.txt"
    (trace (fileAction scenarioEnv "example" "out.txt"
              (mkFileOptions false (Some (Finite 3)) (Some "tlds.txt"))))
  = [("example.com" ++ newLine, flag_a); ("example.net" ++ newLine, flag_a)].
Proof.
  destruct (plain_file_in_source_order scenarioEnv "example" "out.txt"
              (mkFileOptions false (Some (Finite 3)) (Some "tlds.txt"))
              (gettingFromFile "tlds.txt") scenarioText eq_refl eq_refl)
    as (H & _).
  exact H.
Defined.

(** X15. When every lookup fails and the checks settle in the order of their
    launch, file mode with [--ignore-unavailable] ends with exactly the trace
    of file mode without it: the same lines in the same order. *)
Theorem ignoring_equals_plain_when_all_fail :
  forall env sld fileName max listFile announce rawTlds lookup,
    alwaysFails lookup ->
    loadSource env listFile = (announce, Fulfilled rawTlds) ->
    exists w',
      runSchedule
        (inLaunchOrder lookup
           (List.length (inflight (fileAction env sld fileName
                                     (mkFileOptions true max listFile)))))
        (fileAction env sld fileName (mkFileOptions true max listFile))
      = Some w'
      /\ inflight w' = []
      /\ trace w' = trace (fileAction env sld fileName (mkFileOptions false max listFile))
      /\ Forall (fun v => snd v = true) (verdicts w').
Proof.
  intros env s fileName max listFile announce rawTlds lookup Hfail Hload.
  destruct (fileAction_plain env s fileName (mkFileOptions false max listFile)
              announce rawTlds eq_refl Hload) as (header & Hplain).
  destruct (action_fulfilled env s listFile
              (fileBody s fileName true (toNumber max)) announce rawTlds Hload)
    as (header' & Hhd & Hw0).
  change (action env s listFile (fileBody s fileName true (toNumber max)))
    with (fileAction env s fileName (mkFileOptions true max listFile)) in Hw0.
  rewrite forOf_fileBody in Hw0. cbn [fst snd] in Hw0.
  eexists. split; [apply run_in_launch_order; reflexivity|].
  cbn [inflight trace verdicts]. split; [reflexivity|].
  rewrite Hplain, Hw0. cbn [trace inflight verdicts f_max].
  rewrite (replay_all_available_file s fileName lookup _ Hfail).
  assert (Hheader : header' = header).
  { destruct (action_fulfilled env s listFile
                (fileBody s fileName false (toNumber max)) announce rawTlds Hload)
      as (h2 & Hhd2 & Hw2).
    change (action env s listFile (fileBody s fileName false (toNumber max)))
      with (fileAction env s fileName (mkFileOptions false max listFile)) in Hw2.
    rewrite Hplain in Hw2. inversion Hw2; subst.
    rewrite Hhd in Hhd2. now inversion Hhd2. }
  rewrite Hheader. split; [reflexivity|].
  apply Forall_forall. intros [d b] Hin. cbn [app] in Hin.
  unfold verdictsOf in Hin. rewrite !map_map in Hin.
  apply in_map_iff in Hin as (t & Heq & _). inversion Heq; subst.
  cbn [snd]. apply (isDomainAvailable_fails _ _ Hfail).
Qed.

Lemma ignoring_equals_plain_when_all_fail_witness :
  exists w',
    runSchedule (inLaunchOrder nxdomain 2)
      (fileAction scenarioEnv "example" "out.txt"
         (mkFileOptions true (Some (Finite 3)) (Some "tlds.txt")))
    = Some w'
    /\ inflight w' = []
    /\ trace w' = trace (fileAction scenarioEnv "example" "out.txt"
                           (mkFileOptions false (Some (Finite 3)) (Some "tlds.txt")))
    /\ Forall (fun v => snd v = true) (verdicts w').
Proof.
  apply (ignoring_equals_plain_when_all_fail scenarioEnv "example" "out.txt"
           (Some (Finite 3)) (Some "tlds.txt") (gettingFromFile "tlds.txt")
           scenarioText nxdomain).
  - intro hostname. exists "ENOTFOUND". reflexivity.
  - reflexivity.
Defined.

(** ** What a run never writes *)

Section Writes.

Lemma loadSource_announce : forall env listFile,
  exists t, fst (loadSource env listFile) = ConsoleLog t.
Proof.
  intros env listFile. unfold loadSource.
  destruct listFile as [f|]; [destruct (truthy f)|]; eexists; reflexivity.
Qed.

Lemma run_action : forall env sld cmd,
  run env sld cmd = action env sld (listOf cmd) (bodyOf sld cmd).
Proof. intros env s [options|fileName options]; reflexivity. Qed.

Lemma forOf_bodyOf : forall sld cmd tlds,
  Forall (appendsOnlyTo (targetOf cmd)) (fst (forOf (bodyOf sld cmd) tlds))
  /\ Forall (fun c => forall b, Forall (appendsOnlyTo (targetOf cmd)) (resume c b))
            (snd (forOf (bodyOf sld cmd) tlds)).
Proof.
  intros s [options|fileName options] tlds; cbn [bodyOf targetOf].
  - rewrite forOf_printBody.
    destruct (p_test options || p_ignoreUnavailable options); cbn [fst snd]; split.
    + constructor.
    + apply Forall_forall. intros c Hc. apply in_map_iff in Hc as (t & <- & _).
      intro b. unfold resume. cbn [onFulfilled].
      destruct b; [|destruct (negb (p_ignoreUnavailable options))];
        repeat constructor.
    + apply Forall_forall. intros e He. apply in_map_iff in He as (t & <- & _).
      exact I.
    + constructor.
  - rewrite forOf_fileBody.
    destruct (f_ignoreUnavailable options); cbn [fst snd]; split.
    + constructor.
    + apply Forall_forall. intros c Hc. apply in_map_iff in Hc as (t & <- & _).
      intro b. unfold resume. cbn [onFulfilled].
      destruct b; repeat constructor.
    + apply Forall_forall. intros e He. apply in_map_iff in He as (t & <- & _).
      split; reflexivity.
    + constructor.
Qed.

Lemma run_appends_only : forall env sld cmd,
  Forall (appendsOnlyTo (targetOf cmd)) (trace (run env sld cmd))
  /\ Forall (fun c => forall b, Forall (appendsOnlyTo (targetOf cmd)) (resume c b))
            (inflight (run env sld cmd)).
Proof.
  intros env s cmd. rewrite run_action. unfold action.
  destruct (loadSource_announce env (listOf cmd)) as (t & Ht).
  destruct (loadSource env (listOf cmd)) as [announce p]. cbn [fst] in Ht. subst.
  destruct p as [rawTlds|e]; [|split; repeat constructor].
  unfold onRawTlds.
  destruct (forOf_bodyOf s cmd (snd (shiftHeader (split rawTlds)))) as [Hf Hc].
  destruct (shiftHeader (split rawTlds)) as [shown tlds] eqn:Es. cbn [snd] in Hf, Hc.
  destruct (forOf (bodyOf s cmd) tlds) as [looped launched]. cbn [fst snd] in Hf, Hc.
  cbn [trace inflight]. split; [|exact Hc].
  constructor; [exact I|]. apply Forall_app. split.
  - unfold shiftHeader in Es. destruct (split rawTlds); inversion Es; repeat constructor.
  - constructor; [exact I | exact Hf].
Qed.

Lemma writesTo_appendsOnly : forall target f tr,
  Forall (appendsOnlyTo target) tr ->
  Forall (fun x => snd x = flag_a) (writesTo f tr)
  /\ (target <> Some f -> writesTo f tr = []).
Proof.
  intros target f. induction tr as [|[t|g d fl] r IH]; intro H.
  - split; [constructor | reflexivity].
  - inversion H; subst. now apply IH.
  - inversion H as [|? ? Hhead Hr]; subst. destruct Hhead as [Hfl Htarget]. subst fl.
    destruct (IH Hr) as [IH1 IH2]. cbn [writesTo].
    destruct (String.eqb g f) eqn:E.
    + apply String.eqb_eq in E. subst g. split; [now constructor|].
      intro Hne. now contradiction Hne.
    + split; assumption.
Qed.

Lemma fileAfter_all_appends : forall ws content,
  Forall (fun x => snd x = flag_a) ws ->
  fileAfter content ws = content ++ joinAll (map fst ws).
Proof.
  induction ws as [|[d fl] r IH]; intros content H; simpl.
  - now rewrite append_empty_r.
  - inversion H as [|? ? Hfl Hr]; subst. cbn [snd] in Hfl. subst fl.
    now rewrite (IH _ Hr), append_assoc.
Qed.

End Writes.

(** X16. A run only ever appends, and only to the file named on the command
    line: at every moment of a run of either command, every write in the
    trace carries the append flag and goes to that file, every file still
    begins with its former content, and print mode writes no file at all. *)
Theorem run_only_appends :
  forall env sld cmd w,
    steps (run env sld cmd) w ->
    (forall f data fl,
        In (WriteFile f data fl) (trace w) -> fl = flag_a /\ targetOf cmd = Some f)
    /\ (forall f content,
          exists added, fileAfter content (writesTo f (trace w)) = content ++ added)
    /\ (forall f, targetOf cmd <> Some f -> writesTo f (trace w) = []).
Proof.
  intros env s cmd w Hsteps.
  destruct (run_appends_only env s cmd) as [Htrace Hflight].
  destruct (steps_history _ _ Hsteps) as (settled & Htr & _ & Hperm & _).
  assert (Hall : Forall (appendsOnlyTo (targetOf cmd)) (trace w)).
  { rewrite Htr. apply Forall_app. split; [exact Htrace|].
    unfold replay. apply Forall_flat_map. apply Forall_forall. intros [c b] Hin.
    cbn [fst snd]. rewrite Forall_forall in Hflight. apply Hflight.
    apply (Permutation_in _ Hperm). apply in_or_app. right.
    apply in_map_iff. now exists (c, b). }
  split; [|split].
  - intros f data fl Hin. rewrite Forall_forall in Hall. exact (Hall _ Hin).
  - intros f content.
    destruct (writesTo_appendsOnly _ f _ Hall) as [Hfl _].
    eexists. now apply fileAfter_all_appends.
  - intros f Hne. now apply (writesTo_appendsOnly _ f _ Hall).
Qed.

Lemma run_only_appends_witness :
  writesTo "out.txt"
    (trace (run scenarioEnv "example"
              (Print (mkPrintOptions false false None (Some "tlds.txt") false))))
  = [].
Proof.
  destruct (run_only_appends scenarioEnv "example"
              (Print (mkPrintOptions false false None (Some "tlds.txt") false))
              _ (steps_refl _)) as (_ & _ & H).
  apply H. discriminate.
Defined.

(** ** The source a run reads *)

(** X17. The list of TLDs is read from one place only: the file named by
    [--list] when that name is given and not empty, the fixed IANA address
    otherwise.  With a list file no request is made to that address; without
    one, or with the empty name, no file is read.  The announcement, the
    state at the end of the loop and every state a run can reach from it are
    the same under two file systems and web servers that agree on the source
    selected.  (The lookups of the checks are no part of this: they go to the
    resolver in either case.) *)
Theorem run_reads_one_source :
  forall env env' sld cmd,
    (forall f, listOf cmd = Some f -> truthy f = true ->
               readFile env f = readFile env' f) ->
    (listOf cmd = None \/ listOf cmd = Some "" ->
     nodefetch env tldUrl = nodefetch env' tldUrl) ->
    loadSource env (listOf cmd) = loadSource env' (listOf cmd)
    /\ run env sld cmd = run env' sld cmd
    /\ (forall w, steps (run env sld cmd) w <-> steps (run env' sld cmd) w).
Proof.
  intros env env' s cmd Hfile Hurl.
  assert (Hload : loadSource env (listOf cmd) = loadSource env' (listOf cmd)).
  { unfold loadSource, fetchText.
    destruct (listOf cmd) as [f|] eqn:El.
    - destruct (truthy f) eqn:Ef.
      + now rewrite (Hfile f eq_refl Ef).
      + apply truthy_false in Ef. subst f. now rewrite Hurl by now right.
    - now rewrite Hurl by now left. }
  assert (Hrun : run env s cmd = run env' s cmd).
  { rewrite !run_action. unfold action. now rewrite Hload. }
  split; [exact Hload|]. split; [exact Hrun|].
  intro w. now rewrite Hrun.
Qed.

Lemma run_reads_one_source_witness :
  run scenarioEnv "example"
    (File "out.txt" (mkFileOptions false (Some (Finite 3)) (Some "tlds.txt")))
  = run (mkEnv (readFile scenarioEnv) (nodefetch notFoundEnv)) "example"
      (File "out.txt" (mkFileOptions false (Some (Finite 3)) (Some "tlds.txt"))).
Proof.
  apply (run_reads_one_source scenarioEnv
           (mkEnv (readFile scenarioEnv) (nodefetch notFoundEnv)) "example"
           (File "out.txt" (mkFileOptions false (Some (Finite 3)) (Some "tlds.txt")))).
  - intros f _ _. reflexivity.
  - intros [H|H]; discriminate H.
Defined.

(** ** The filter of the earlier program *)

(** X18. The earlier loop measured the line as it is, the present
    [validateTld] measures it trimmed: every line the earlier filter kept is
    kept now, the two agree on lines without white space around them, and a
    padded line such as [" com"] under max 3 is kept only now. *)
Theorem earlier_filter_is_stricter :
  (forall maxLength t, earlierKeeps maxLength t = true -> validateTld t maxLength = true)
  /\ (forall maxLength t, trim t = t -> earlierKeeps maxLength t = validateTld t maxLength)
  /\ earlierKeeps (Finite 3) " com" = false
  /\ validateTld " com" (Finite 3) = true.
Proof.
  split; [|split; [|split; reflexivity]].
  - intros m t H. unfold earlierKeeps, Earlier.validateTld in H.
    apply validateTld_true.
    destruct (lengthGreater (String.length t) m) eqn:El; [discriminate|].
    destruct (truthy t) eqn:Et; [|discriminate]. simpl in H.
    destruct (includes t "-") eqn:Ei; [discriminate|].
    split; [intros ->; discriminate Et|]. split; [|reflexivity].
    destruct (lengthGreater (String.length (trim t)) m) eqn:E; [|reflexivity].
    apply (lengthGreater_mono_len _ (String.length t)) in E; [congruence|].
    apply length_trim_le.
  - intros m t Ht. unfold earlierKeeps, Earlier.validateTld, validateTld.
    rewrite Ht.
    destruct (truthy t); destruct (lengthGreater (String.length t) m);
      destruct (includes t "-"); reflexivity.
Qed.

Lemma earlier_filter_is_stricter_witness :
  validateTld "com" (Finite 3) = true.
Proof.
  destruct earlier_filter_is_stricter as (H & _). apply H. reflexivity.
Defined.
